(** * pycube: call-tree aggregation and multi-run merging ([merger.py])

    A shallow embedding of [src/merger.py] and the properties of its
    exclusive-to-inclusive conversion, of the metric-set check, of the
    multi-run merge and of the metric selection.

    Conventions of the embedding.
    - Measurements are exact integers ([Z]); rounding of floating point
      sums is not modelled.  A missing cell (pandas' NaN) is an absent key.
    - A Python exception is a value [Raise e] of the [Result] type.
    - A pandas [Series] indexed by Cnode ID is a finite map [gmap Z Z];
      a [DataFrame] is a [Frame]: an index (a finite set of row labels)
      and a list of labelled columns, each a finite map from row label to
      value.  Row labels of a frame are unique and their order is not
      modelled; the order of the columns is.
    - The iteration order of a Python [set] is an explicit parameter. *)

From stdpp Require Import gmap strings list fin_maps sorting.

Open Scope Z_scope.

(** ** Exceptions *)

Inductive PyError : Type :=
  | KeyError
  | AssertionError
  | TypeError
  | ValueError
  | IndexError.

Global Instance PyError_eq_dec : EqDecision PyError.
Proof. solve_decision. Defined.

Inductive Result (A : Type) : Type :=
  | Ok (a : A)
  | Raise (e : PyError).
Global Arguments Ok {A} a.
Global Arguments Raise {A} e.

Global Instance Result_ret : MRet Result := λ A a, Ok a.
Global Instance Result_bind : MBind Result := λ A B f m,
  match m with
  | Ok a => f a
  | Raise e => Raise e
  end.
Global Instance Result_fmap : FMap Result := λ A B f m,
  match m with
  | Ok a => Ok (f a)
  | Raise e => Raise e
  end.

Definition is_Ok {A} (m : Result A) : Prop := ∃ a, m = Ok a.

(** ** The call tree *)

(** Modelled from the spec: the class [CallTreeNode] of [calltree.py] is
    not part of the sources at hand.  Section 3 of the specification gives
    its attributes; [merger.py] reads [cnode_id] and [children]. *)
Local Unset Elimination Schemes.
Inductive CallTreeNode : Type :=
  | Cnode (cnode_id : Z) (parent : option Z) (fname : string)
          (children : list CallTreeNode).
Local Set Elimination Schemes.

Definition cnode_id (n : CallTreeNode) : Z :=
  match n with Cnode i _ _ _ => i end.
Definition children (n : CallTreeNode) : list CallTreeNode :=
  match n with Cnode _ _ _ cs => cs end.

Section CallTreeNode_induction.
Variable P : CallTreeNode → Prop.
Hypothesis P_node : ∀ i p f cs, Forall P cs → P (Cnode i p f cs).

Fixpoint CallTreeNode_ind (n : CallTreeNode) : P n :=
  match n with
  | Cnode i p f cs =>
      P_node i p f cs
        ((fix go (l : list CallTreeNode) : Forall P l :=
            match l with
            | [] => Forall_nil_2 P
            | c :: l' => Forall_cons_2 P c l' (CallTreeNode_ind c) (go l')
            end) cs)
  end.
End CallTreeNode_induction.

(** Modelled from the spec: [calltree.iterate_on_call_tree] is not part of
    the sources at hand.  Section 6 describes it as the ordered sequence of
    the nodes of the tree; it is taken here as the walk that yields a node
    and then, child by child, the nodes below it. *)
Fixpoint iterate_on_call_tree (root : CallTreeNode) : list CallTreeNode :=
  match root with
  | Cnode _ _ _ cs => root :: flat_map iterate_on_call_tree cs
  end.

(** ** Evaluation with a log of the index look-ups

    [aggregate] is called over and over by the conversions; to count its
    work the embedding records every [.loc] look-up by Cnode ID.  A
    computation yields the look-ups made so far and either a value or the
    exception that stopped it. *)

Definition Traced (A : Type) : Type := (list Z * Result A)%type.

Definition lookups {A} (m : Traced A) : list Z := m.1.
Definition outcome {A} (m : Traced A) : Result A := m.2.

Global Instance Traced_ret : MRet Traced := λ A a, ([], Ok a).
Global Instance Traced_bind : MBind Traced := λ A B f m,
  match m.2 with
  | Ok a => (m.1 ++ (f a).1, (f a).2)
  | Raise e => (m.1, Raise e)
  end.

(** [table.loc[i]]: one look-up, [KeyError] when the label is absent. *)
Definition loc {V} (table : Z → option V) (i : Z) : Traced V :=
  ([i], match table i with Some v => Ok v | None => Raise KeyError end).

(** [[body(x) for x in xs]], evaluated left to right. *)
Fixpoint for_each {A B} (body : A → Traced B) (xs : list A) : Traced (list B) :=
  match xs with
  | [] => mret []
  | x :: xs' => y ← body x; ys ← for_each body xs'; mret (y :: ys)
  end.

(** ** Aggregator *)

Section Aggregator.
Context {V : Type}.
(** The exclusive measurement seen through [.loc], and [+] on its values. *)
Variable table : Z → option V.
Variable add : V → V → V.

(** The local function [aggregate] of both conversions. *)
Fixpoint aggregate (root : CallTreeNode) : Traced V :=
  match root with
  | Cnode i _ _ cs =>
      value ← loc table i;
      (fix loop (cs : list CallTreeNode) (value : V) : Traced V :=
         match cs with
         | [] => mret value
         | child :: cs' => r ← aggregate child; loop cs' (add value r)
         end) cs value
  end.

(** The [for child in root.children] loop of [aggregate]. *)
Fixpoint add_children (cs : list CallTreeNode) (value : V) : Traced V :=
  match cs with
  | [] => mret value
  | child :: cs' => r ← aggregate child; add_children cs' (add value r)
  end.

(** The list comprehension over [ct.iterate_on_call_tree(call_tree)]. *)
Definition aggregate_all (call_tree : CallTreeNode) : Traced (list (Z * V)) :=
  for_each (λ node, v ← aggregate node; mret (cnode_id node, v))
           (iterate_on_call_tree call_tree).
End Aggregator.

(** [convert_series_to_inclusive]: the pairs (Cnode ID, aggregate) in the
    order of the traversal, which [set_index('Cnode ID').metric] turns
    into a series with that index. *)
Definition convert_series_to_inclusive (series : gmap Z Z)
    (call_tree : CallTreeNode) : Traced (list (Z * Z)) :=
  aggregate_all (λ i, series !! i) Z.add call_tree.

(** ** Data frames *)

(** A label of an index level: a number (run, thread, Cnode ID) or a
    name (metric, column title). *)
Inductive Label : Type :=
  | LInt (z : Z)
  | LStr (s : string).

Global Instance Label_eq_dec : EqDecision Label.
Proof. solve_decision. Defined.

Global Instance Label_countable : Countable Label :=
  inj_countable'
    (λ l, match l with LInt z => inl z | LStr s => inr s end)
    (λ x, match x with inl z => LInt z | inr s => LStr s end)
    (λ l, match l with LInt _ => eq_refl | LStr _ => eq_refl end).

(** A column key: one label per level of the column index.  A plain
    [Index] has one level, a [MultiIndex] several; the Python tuple
    [(i, col)] built from a plain label [col] is [LInt i :: col]. *)
Abbreviation Key := (list Label).

Record Frame (K : Type) `{Countable K} : Type := mkFrame {
  index : gset K;
  names : list (option string);
  cols : list (Key * gmap K Z) }.
Global Arguments mkFrame {K _ _} index names cols.
Global Arguments index {K _ _} f.
Global Arguments names {K _ _} f.
Global Arguments cols {K _ _} f.

(** [df.columns] *)
Definition columns `{Countable K} (f : Frame K) : list Key := (cols f).*1.

(** A row of a frame, [df.loc[i, :]], as the cells in column order;
    [None] is NaN. *)
Definition frame_row `{Countable K} (f : Frame K) (i : K) : option (list (option Z)) :=
  if decide (i ∈ index f) then Some ((λ c, c.2 !! i) <$> cols f) else None.

(** Addition of two rows of one frame: cell by cell, NaN absorbing. *)
Definition cell_add (a b : option Z) : option Z :=
  match a, b with
  | Some x, Some y => Some (x + y)
  | _, _ => None
  end.
Definition row_add (r1 r2 : list (option Z)) : list (option Z) :=
  zip_with cell_add r1 r2.

(** The [j]-th column of a frame assembled from labelled rows. *)
Definition column_of_rows `{Countable K} (rows : list (K * list (option Z)))
    (j : nat) : gmap K Z :=
  list_to_map (omap (λ r, (r.1,.) <$> mjoin (r.2 !! j)) rows).

Definition frame_of_rows `{Countable K} (nms : list (option string))
    (keys : list Key) (rows : list (K * list (option Z))) : Frame K :=
  {| index := list_to_set rows.*1;
     names := nms;
     cols := imap (λ j c, (c, column_of_rows rows j)) keys |}.

(** [convert_df_to_inclusive].  After the rows are aggregated,
    [pd.concat(objs, keys)] stacks them under their Cnode ID,
    [rename_axis] names the three levels of the stacked index (so the
    columns of the input must have two levels), and [unstack] spreads the
    two column levels again; [unstack] refuses an index with a repeated
    entry.  The result lists its columns in the order of the input. *)
Definition convert_df_to_inclusive (df_convertible : Frame Z)
    (call_tree : CallTreeNode) : Traced (Frame Z) :=
  rows ← aggregate_all (frame_row df_convertible) row_add call_tree;
  if decide (length (names df_convertible) = 2%nat) then
    if decide (NoDup rows.*1 ∧ NoDup (columns df_convertible)) then
      mret (frame_of_rows [Some "metric"; Some "Thread ID"]
              (columns df_convertible) rows)
    else ([], Raise ValueError)
  else ([], Raise ValueError).

(** ** Python sets *)

(** The order in which Python iterates over a [set].  It depends on the
    hash values of the elements, which for strings change from one
    interpreter process to the next; the embedding takes it as a
    parameter of every function that iterates over a set. *)
Definition SetIter : Type :=
  ∀ (A : Type) (EqA : EqDecision A) (CountA : Countable A), gset A → list A.

(** [list(s)], or [for x in s], under the iteration order [it]. *)
Definition iterate `{Countable A} (it : SetIter) (s : gset A) : list A :=
  it A _ _ s.

(** An iteration order visits every element of the set once. *)
Definition SetIter_valid (it : SetIter) : Prop :=
  ∀ (A : Type) (EqA : EqDecision A) (CountA : Countable A) (s : gset A),
    it A EqA CountA s ≡ₚ elements s.

(** [set.intersection] applied to the unpacked list of sets: the unbound
    method needs a first set. *)
Definition set_intersection `{Countable A} (sets : list (gset A)) : Result (gset A) :=
  match sets with
  | [] => Raise TypeError
  | s :: ss => Ok (foldl (∩) s ss)
  end.

(** [itertools.combinations(l, 2)] *)
Fixpoint combinations2 {A} (l : list A) : list (A * A) :=
  match l with
  | [] => []
  | x :: l' => (pair x <$> l') ++ combinations2 l'
  end.

(** The loop of assertions of [check_column_sets]. *)
Fixpoint assert_disjoint `{Countable A} (pairs : list (gset A * gset A)) : Result unit :=
  match pairs with
  | [] => Ok tt
  | (nccs1, nccs2) :: pairs' =>
      if decide (size (nccs1 ∩ nccs2) = 0%nat) then assert_disjoint pairs'
      else Raise AssertionError
  end.

(** ** MetricSetReconciler: [check_column_sets] *)

Definition check_column_sets (column_sets : list (gset Key)) : Result unit :=
  common_cols ← set_intersection column_sets;
  let noncommon_columns_df :=
    (λ column_set, column_set ∖ common_cols) <$> column_sets in
  assert_disjoint (combinations2 noncommon_columns_df).

(** ** Frame operations used by the merge *)

(** [mapM] over [Result], left to right. *)
Fixpoint traverse {A B} (f : A → Result B) (l : list A) : Result (list B) :=
  match l with
  | [] => Ok []
  | x :: l' => y ← f x; ys ← traverse f l'; Ok (y :: ys)
  end.

(** [df.loc[:, labels]] on the columns: the columns carrying each label,
    label by label; [KeyError] for a label that no column carries. *)
Definition loc_columns `{Countable K} (f : Frame K) (labels : list Key) : Result (Frame K) :=
  if decide (Forall (λ l, l ∈ columns f) labels) then
    Ok {| index := index f;
          names := names f;
          cols := l ← labels; filter (λ c, c.1 = l) (cols f) |}
  else Raise KeyError.

(** [df.columns = pd.MultiIndex.from_tuples(labels, names=nms)]: the new
    labels replace the old ones position by position; pandas refuses a
    list of another length. *)
Definition set_columns `{Countable K} (nms : list (option string))
    (labels : list Key) (f : Frame K) : Result (Frame K) :=
  if decide (length labels = length (cols f)) then
    Ok {| index := index f; names := nms; cols := zip labels (cols f).*2 |}
  else Raise ValueError.

(** The restriction of a column to the rows of [idx]. *)
Definition restrict_rows `{Countable K} (idx : gset K) (c : Key * gmap K Z) : Key * gmap K Z :=
  (c.1, filter (λ kv, kv.1 ∈ idx) c.2).

(** [pd.concat(frames, axis='columns', join='inner')]: the rows present
    in every frame, under the columns of all frames one after the other. *)
Definition concat_columns `{Countable K} (frames : list (Frame K)) : Result (Frame K) :=
  match frames with
  | [] => Raise ValueError
  | f :: fs =>
      let idx := foldl (∩) (index f) (index <$> fs) in
      Ok {| index := idx;
            names := names f;
            cols := g ← frames; restrict_rows idx <$> cols g |}
  end.

(** One column of [df.unstack('Thread ID')]: the values of column [c] on
    thread [t], by callpath. *)
Definition unstack_column (c : Key * gmap (string * Z) Z) (t : Z) : Key * gmap string Z :=
  (c.1 ++ [LInt t], omap (λ row : gmap Z Z, row !! t)
        (map_curry (M1:=gmap string) (M2:=gmap Z) c.2)).

(** [df.unstack('Thread ID')] on a frame indexed by (Full Callpath,
    Thread ID): the thread level moves from the rows to the innermost
    level of the columns, threads in increasing order; a combination that
    the frame does not have becomes NaN. *)
Definition thread_labels (idx : gset (string * Z)) : list Z :=
  merge_sort Z.le (elements (set_map (D:=gset Z) snd idx)).

Definition unstack_thread (f : Frame (string * Z)) : Frame string :=
  let threads := thread_labels (index f) in
  {| index := set_map fst (index f);
     names := names f ++ [Some "Thread ID"];
     cols := c ← cols f; unstack_column c <$> threads |}.

(** [.join(tmp, how='inner').set_index('Cnode ID')]: every row whose
    callpath is a label of [tmp] is kept, once for each such label of
    [tmp], under the Cnode ID that [tmp] gives it. *)
Definition rekey_column (pairs : list (string * Z)) (c : Key * gmap string Z) : Key * gmap Z Z :=
  (c.1, list_to_map (omap (λ pi, (pi.2,.) <$> c.2 !! pi.1) pairs)).

Definition join_set_index (tmp : list (string * Z)) (f : Frame string) : Frame Z :=
  let pairs := filter (λ pi, pi.1 ∈ index f) tmp in
  {| index := list_to_set pairs.*2;
     names := names f;
     cols := rekey_column pairs <$> cols f |}.

(** ** RunMerger: [process_cubex] and [process_multi] *)

(** A row of the call-tree table of [calltree_to_df2]. *)
Record TreeRow : Type := mkTreeRow {
  Function_Name : string;
  Cnode_ID : Z;
  Parent_Cnode_ID : option Z;
  Full_Callpath : string }.

(** The dump of a profile: one row per (Cnode ID, Thread ID) with one
    value per metric column. *)
Record DumpRow : Type := mkDumpRow {
  dump_cnode : Z;
  dump_thread : Z;
  dump_values : list Z }.

Record Dump : Type := mkDump {
  dump_metrics : list string;
  dump_rows : list DumpRow }.

(** The table [df] of [process_cubex]: dump rows joined with the row of
    their node in the call-tree table. *)
Record CubexDf : Type := mkCubexDf {
  df_metrics : list string;
  df_rows : list (DumpRow * TreeRow) }.

Record CubexInfo : Type := mkCubexInfo {
  calltree : CallTreeNode;
  calltree_df : list TreeRow;
  df : CubexDf;
  conv_info : list string }.

(** [pd.merge(dump_df, call_tree_df, how='inner', on='Cnode ID')] *)
Definition merge_on_cnode (dump : Dump) (call_tree_df : list TreeRow) : CubexDf :=
  {| df_metrics := dump_metrics dump;
     df_rows := d ← dump_rows dump;
                pair d <$> filter (λ r, Cnode_ID r = dump_cnode d) call_tree_df |}.

(** The key of a row under [set_index(['Full Callpath', 'Thread ID'])]. *)
Definition row_key (r : DumpRow * TreeRow) : string * Z :=
  (Full_Callpath r.2, dump_thread r.1).

(** [adjust_df]: the three node columns are dropped and the rows are
    indexed by (Full Callpath, Thread ID); the metric columns stay.
    pandas accepts a repeated (Full Callpath, Thread ID) pair here and
    fails on it later, when [concat] aligns the frames or [unstack]
    reshapes them ("Index contains duplicate entries"); the embedding,
    whose frames have unique row labels, raises at this point. *)
Definition adjust_df (df : CubexDf) : Result (Frame (string * Z)) :=
  let keys := row_key <$> df_rows df in
  if decide (NoDup keys) then
    Ok {| index := list_to_set keys;
          names := [None];
          cols := imap (λ j m,
                    ([LStr m],
                     list_to_map (omap (λ r, (row_key r,.) <$> dump_values r.1 !! j)
                                       (df_rows df))))
                  (df_metrics df) |}
  else Raise ValueError.

(** [call_tree_df.loc[:, ['Full Callpath', 'Cnode ID']].set_index('Full
    Callpath')]: the Cnode ID of every callpath of the call-tree table. *)
Definition callpath_index (call_tree_df : list TreeRow) : list (string * Z) :=
  (λ r, (Full_Callpath r, Cnode_ID r)) <$> call_tree_df.

(** The row keys (Full Callpath, Thread ID) of the table of a run. *)
Definition run_keys (df : CubexDf) : gset (string * Z) :=
  list_to_set (row_key <$> df_rows df).

(** The local function [replace_fcpath_with_cnodeID] of [process_multi];
    [colnames] is [df.columns.names + ['Thread ID']]. *)
Definition replace_fcpath_with_cnodeID (tmp : list (string * Z))
    (df : Frame (string * Z)) : Frame Z :=
  join_set_index tmp (unstack_thread df).

Section Profiles.
(** The collaborators that read a profile file. *)
Variable get_call_tree : string → CallTreeNode.
Variable calltree_to_df2 : CallTreeNode → list TreeRow.
Variable get_dump : string → Dump.
Variable get_inclusive_convertible_metrics : string → list string.
(** The iteration order of sets in the running interpreter. *)
Variable set_iter : SetIter.

Definition process_cubex (profile_file : string) : CubexInfo :=
  let call_tree := get_call_tree profile_file in
  let call_tree_df := calltree_to_df2 call_tree in
  let dump_df := get_dump profile_file in
  {| calltree := call_tree;
     calltree_df := call_tree_df;
     df := merge_on_cnode dump_df call_tree_df;
     conv_info := get_inclusive_convertible_metrics profile_file |}.

(** The common part of the merge: lines 115 to 125 of [merger.py]. *)
Definition merge_common (dfs2 : list (Frame (string * Z))) : Result (Frame (string * Z)) :=
  let columns_df := (λ df, list_to_set (C:=gset Key) (columns df)) <$> dfs2 in
  common_cols ← set_intersection columns_df;
  dfs2_common ← traverse (λ df, loc_columns df (iterate set_iter common_cols)) dfs2;
  dfs2_common ← traverse (λ idf,
      set_columns [Some "run"; Some "metric"]
        ((λ col, LInt (Z.of_nat idf.1) :: col) <$> iterate set_iter common_cols)
        idf.2) (imap pair dfs2_common);
  concat_columns dfs2_common.

(** The run-specific part of the merge: lines 130 to 139. *)
Definition merge_noncommon (dfs2 : list (Frame (string * Z))) : Result (Frame (string * Z)) :=
  let columns_df := (λ df, list_to_set (C:=gset Key) (columns df)) <$> dfs2 in
  common_cols ← set_intersection columns_df;
  let noncommon_columns_df := (λ columns, columns ∖ common_cols) <$> columns_df in
  dfs2_noncommon ← traverse (λ dn, loc_columns dn.1 (iterate set_iter dn.2))
                            (zip dfs2 noncommon_columns_df);
  concat_columns dfs2_noncommon.

Definition process_multi (profile_files : list string)
    : Result (CallTreeNode * Frame Z * Frame Z) :=
  match profile_files with
  | [] => Raise IndexError
  | first_file :: _ =>
      let first_file_info := process_cubex first_file in
      let call_tree := calltree first_file_info in
      let call_tree_df := calltree_df first_file_info in
      let dfs := (λ pf, df (process_cubex pf)) <$> profile_files in
      dfs2 ← traverse adjust_df dfs;
      df_common ← merge_common dfs2;
      df_noncommon ← merge_noncommon dfs2;
      let tmp := callpath_index call_tree_df in
      Ok (call_tree,
          replace_fcpath_with_cnodeID tmp df_common,
          replace_fcpath_with_cnodeID tmp df_noncommon)
  end.

(** ** MetricSelector: [select_metrics] *)

(** [names.index(x)] *)
Fixpoint list_index {A} `{EqDecision A} (x : A) (l : list A) : Result nat :=
  match l with
  | [] => Raise ValueError
  | y :: l' => if decide (x = y) then Ok 0%nat else S <$> list_index x l'
  end.

(** [df.columns.levels[j]]: the labels in use at level [j]. *)
Definition level_values `{Countable K} (f : Frame K) (j : nat) : gset Label :=
  list_to_set (omap (λ c, c.1 !! j) (cols f)).

(** [df.loc[:, (slice(None), ..., labels, ..., slice(None))]]: the
    columns whose label at level [j] is one of [labels], in the order of
    [labels], those of one label in the order of the frame. *)
Definition loc_level `{Countable K} (f : Frame K) (j : nat) (labels : list Label) : Frame K :=
  {| index := index f;
     names := names f;
     cols := l ← labels; filter (λ c, c.1 !! j = Some l) (cols f) |}.

Definition select_metrics `{Countable K} (df : Frame K)
    (selected_metrics : list Label) : Result (Frame K) :=
  metric_level ← list_index (Some "metric"%string) (names df);
  let possible_metrics :=
    list_to_set (C:=gset Label) selected_metrics ∩ level_values df metric_level in
  Ok (loc_level df metric_level (iterate set_iter possible_metrics)).
End Profiles.

(** ** Reference definitions for the aggregation

    [inclusive] and [subtree_sum] follow the words of the specification:
    the inclusive value of a node is its exclusive value plus the
    inclusive values of its children, that is, the sum of the exclusive
    values over the subtree of the node. *)

Section Inclusive.
Context {V : Type}.
Variable table : Z → option V.
Variable add : V → V → V.
Variable nothing : V.

(** The exclusive value recorded for a Cnode ID. *)
Definition exclusive (i : Z) : V := default nothing (table i).

Fixpoint inclusive (v : CallTreeNode) : V :=
  match v with
  | Cnode i _ _ cs => foldl (λ acc c, add acc (inclusive c)) (exclusive i) cs
  end.

End Inclusive.

(** Every node of the tree has an entry in the table. *)
Definition covers {V} (table : Z → option V) (call_tree : CallTreeNode) : Prop :=
  Forall (λ v, is_Some (table (cnode_id v))) (iterate_on_call_tree call_tree).

(** The number of nodes of the subtree below (and including) a node. *)
Definition subtree_size (v : CallTreeNode) : nat :=
  length (iterate_on_call_tree v).

(** A chain [n-1 <- ... <- 1 <- 0] hanging below node [n]: each node has
    one child. *)
Fixpoint chain (n : nat) : CallTreeNode :=
  match n with
  | O => Cnode 0 None "f" []
  | S n' => Cnode (Z.of_nat n) None "f" [chain n']
  end.






Global Instance covers_dec {V} (table : Z → option V) call_tree :
  Decision (covers table call_tree).
Proof. unfold covers. apply _. Defined.

(** ** Sample data

    The end-to-end scenario of the specification: the tree
    root -> A, root -> B, A -> C with exclusive times 1, 2, 3, 4. *)
Definition sample_C : CallTreeNode := Cnode 3 (Some 1) "C" [].
Definition sample_A : CallTreeNode := Cnode 1 (Some 0) "A" [sample_C].
Definition sample_B : CallTreeNode := Cnode 2 (Some 0) "B" [].
Definition sample_tree : CallTreeNode := Cnode 0 None "root" [sample_A; sample_B].
Definition sample_series : gmap Z Z := list_to_map [(0, 1); (1, 2); (2, 3); (3, 4)].

(** The same measurements for two threads, the second ten times the first. *)
Definition sample_frame : Frame Z :=
  {| index := {[0; 1; 2; 3]};
     names := [Some "metric"; Some "Thread ID"];
     cols := [([LStr "time"; LInt 0], sample_series);
              ([LStr "time"; LInt 1], Z.mul 10 <$> sample_series)] |}.

(** Sets of metric names, as [set(df.columns)] gives them. *)
Definition metric_set (ms : list string) : gset Key :=
  list_to_set ((λ m, [LStr m]) <$> ms).

(** Examples for the metric-set check: the two of the specification,
    and three sets in which c is shared by two sets but not by all. *)
Definition sample_sets_ok : list (gset Key) :=
  [metric_set ["a"; "b"; "c"]; metric_set ["a"; "b"; "d"]; metric_set ["a"; "b"; "e"]].
Definition sample_sets_pair : list (gset Key) :=
  [metric_set ["a"; "b"; "c"]; metric_set ["a"; "c"; "d"]].
Definition sample_sets_clash : list (gset Key) :=
  [metric_set ["a"; "b"; "c"]; metric_set ["a"; "c"; "d"]; metric_set ["a"; "b"]].

(** The label, when there is one, is among [labels]. *)
Definition label_among {B} (labels : list B) (o : option B) : Prop :=
  match o with
  | Some b => b ∈ labels
  | None => False
  end.

Global Instance label_among_dec {B} `{EqDecision B} (labels : list B) o :
  Decision (label_among labels o).
Proof. destruct o; cbn; apply _. Defined.

(** ** Sample set orders and profiles *)

(** Two iteration orders for sets: the order of [elements], and the
    reverse of it. *)
Definition iter_elements : SetIter := λ A _ _ s, elements s.
Definition iter_reverse : SetIter := λ A _ _ s, reverse (elements s).

(** A merged table with the single metric "time", for one run and one
    thread. *)
Definition sample_time_frame : Frame Z :=
  {| index := {[0; 1; 2; 3]};
     names := [Some "run"; Some "metric"; Some "Thread ID"];
     cols := [([LInt 0; LStr "time"; LInt 0], sample_series)] |}.

(** A sample of [calltree_to_df2]: one row per node, the full callpath
    of a node being the function names from the root down. *)
Fixpoint tree_rows (prefix : string) (node : CallTreeNode) : list TreeRow :=
  match node with
  | Cnode i p f cs =>
      let path := (prefix +:+ "/" +:+ f)%string in
      mkTreeRow f i p path :: flat_map (tree_rows path) cs
  end.

(** Three sample runs of the sample tree.  Run 0 measures a and c on two
    threads at the root and at A; run 1 measures c and a on one thread;
    run 2 measures only a, and not at node C.  The metric c is shared by
    runs 0 and 1 but not by run 2. *)
Definition sample_dump (profile_file : string) : Dump :=
  if decide (profile_file = "run0"%string) then
    mkDump ["a"; "c"]%string
      [mkDumpRow 0 0 [1; 2]; mkDumpRow 0 1 [5; 6]; mkDumpRow 1 0 [3; 4];
       mkDumpRow 1 1 [7; 8]; mkDumpRow 2 0 [9; 10]; mkDumpRow 3 0 [11; 12]]
  else if decide (profile_file = "run1"%string) then
    mkDump ["c"; "a"]%string
      [mkDumpRow 0 0 [10; 20]; mkDumpRow 1 0 [30; 40]; mkDumpRow 2 0 [50; 60];
       mkDumpRow 3 0 [70; 80]]
  else
    mkDump ["a"]%string
      [mkDumpRow 0 0 [100]; mkDumpRow 1 0 [300]; mkDumpRow 2 0 [500]].

Definition sample_process_multi (set_iter : SetIter) (profile_files : list string)
    : Result (CallTreeNode * Frame Z * Frame Z) :=
  process_multi (λ _, sample_tree) (tree_rows "") sample_dump (λ _, []) set_iter
                profile_files.

(** The tables of the runs are well formed: no (callpath, thread) pair and
    no metric name occurs twice in a table.  [cubex] is [process_cubex]
    with its collaborators. *)
Definition well_formed_runs (cubex : string → CubexInfo)
    (profile_files : list string) : Prop :=
  ∀ pf, pf ∈ profile_files →
    NoDup (row_key <$> df_rows (df (cubex pf))) ∧ NoDup (df_metrics (df (cubex pf))).

(** ** Results up to the order of the columns *)

(** Two frames with the same rows, the same level names and the same
    labelled columns, in any order. *)
Definition frame_perm `{Countable K} (f g : Frame K) : Prop :=
  index f = index g ∧ names f = names g ∧ cols f ≡ₚ cols g.

(** Two computations that raise the same exception, or return related
    values. *)
Definition result_rel {A B} (R : A → B → Prop) (r1 : Result A) (r2 : Result B) : Prop :=
  match r1, r2 with
  | Ok a, Ok b => R a b
  | Raise e1, Raise e2 => e1 = e2
  | _, _ => False
  end.

Definition merged_perm (x y : CallTreeNode * Frame Z * Frame Z) : Prop :=
  x.1.1 = y.1.1 ∧ frame_perm x.1.2 y.1.2 ∧ frame_perm x.2 y.2.

(** The value of a computation that went through. *)
Definition from_Ok {A} (d : A) (m : Result A) : A :=
  match m with
  | Ok a => a
  | Raise _ => d
  end.

Definition empty_frame `{Countable K} : Frame K :=
  {| index := ∅; names := []; cols := [] |}.

Definition sample_files : list string := ["run0"; "run1"; "run2"]%string.

(** The stages of [process_multi] on the three sample runs. *)
Definition sample_dfs2 : list (Frame (string * Z)) :=
  from_Ok []
    (traverse adjust_df
       ((λ pf, df (process_cubex (λ _, sample_tree) (tree_rows "") sample_dump
                     (λ _, []) pf)) <$> sample_files)).
Definition sample_dfc0 : Frame (string * Z) :=
  from_Ok empty_frame (merge_common iter_elements sample_dfs2).
Definition sample_dfn0 : Frame (string * Z) :=
  from_Ok empty_frame (merge_noncommon iter_elements sample_dfs2).
Definition sample_merged : CallTreeNode * Frame Z * Frame Z :=
  from_Ok (sample_tree, empty_frame, empty_frame)
    (sample_process_multi iter_elements sample_files).

(** The column labels of the common table of a merge. *)
Definition common_columns (r : Result (CallTreeNode * Frame Z * Frame Z))
    : Result (list Key) :=
  (λ x, columns x.1.2) <$> r.

(** ** Further reference definitions *)

(** The sets of a list are disjoint two by two. *)
Fixpoint pairwise_disjoint `{Countable A} (sets : list (gset A)) : Prop :=
  match sets with
  | [] => True
  | s :: sets' => Forall (λ s', s ## s') sets' ∧ pairwise_disjoint sets'
  end.

Global Instance Result_eq_dec {A} `{EqDecision A} : EqDecision (Result A).
Proof. solve_decision. Defined.

Global Instance Frame_eq_dec `{Countable K} : EqDecision (Frame K).
Proof. solve_decision. Defined.

(** ** Further samples *)

(** A table with two metrics for one thread. *)
Definition sample_frame_metrics : Frame Z :=
  {| index := {[0; 1; 2; 3]};
     names := [Some "metric"; Some "Thread ID"];
     cols := [([LStr "time"; LInt 0], sample_series);
              ([LStr "visits"; LInt 0], Z.mul 10 <$> sample_series)] |}.

(** The merge of one run. *)
Definition sample_single : CallTreeNode * Frame Z * Frame Z :=
  from_Ok (sample_tree, empty_frame, empty_frame)
    (sample_process_multi iter_elements ["run2"%string]).



(** * Properties *)

(** ** Lists *)

Lemma fmap_list_bind {A B C} (f : B → C) (g : A → list B) (l : list A) :
  f <$> (l ≫= g) = l ≫= (λ x, f <$> g x).
Proof.
  induction l as [|x l IH]; [done|].
  by rewrite !bind_cons, fmap_app, IH.
Qed.

Lemma filter_ext_elem_of {A} (P Q : A → Prop) `{!∀ x, Decision (P x)}
    `{!∀ x, Decision (Q x)} (l : list A) :
  (∀ x, x ∈ l → P x ↔ Q x) → filter P l = filter Q l.
Proof.
  induction l as [|x l IH]; intros HPQ; [done|].
  rewrite !filter_cons.
  rewrite IH by (intros y Hy; apply HPQ; by right).
  pose proof (HPQ x (list_elem_of_here x l)).
  repeat case_decide; tauto || done.
Qed.

(** ** The monad of traced computations *)

Lemma Traced_bind_Ok {A B} (l : list Z) (a : A) (f : A → Traced B) :
  ((l, Ok a) : Traced A) ≫= f = (l ++ (f a).1, (f a).2).
Proof. reflexivity. Qed.

Lemma Traced_bind_Raise {A B} (l : list Z) (e : PyError) (f : A → Traced B) :
  ((l, Raise e) : Traced A) ≫= f = (l, Raise e).
Proof. reflexivity. Qed.

Lemma for_each_Ok {A B} (body : A → Traced B) (tr : A → list Z) (g : A → B) xs :
  Forall (λ x, body x = (tr x, Ok (g x))) xs →
  for_each body xs = (xs ≫= tr, Ok (map g xs)).
Proof.
  induction 1 as [|x xs Hx _ IH]; [done|].
  cbn [for_each]. rewrite Hx, Traced_bind_Ok, IH, Traced_bind_Ok. cbn.
  by rewrite app_nil_r.
Qed.

(** ** The traversal *)

Lemma iterate_on_call_tree_unfold i p f cs :
  iterate_on_call_tree (Cnode i p f cs)
  = Cnode i p f cs :: (cs ≫= iterate_on_call_tree).
Proof. reflexivity. Qed.

Lemma iterate_on_call_tree_self v : v ∈ iterate_on_call_tree v.
Proof. destruct v. rewrite iterate_on_call_tree_unfold. left. Qed.

(** The nodes below a node of the traversal belong to the traversal. *)
Lemma iterate_on_call_tree_subtree root v u :
  v ∈ iterate_on_call_tree root → u ∈ iterate_on_call_tree v →
  u ∈ iterate_on_call_tree root.
Proof.
  revert v u. induction root as [i p f cs IH] using CallTreeNode_ind.
  intros v u Hv Hu. rewrite iterate_on_call_tree_unfold in Hv |- *.
  apply elem_of_cons in Hv as [->|Hv]; [done|].
  right. apply list_elem_of_bind in Hv as (c & Hv & Hc).
  apply list_elem_of_bind. exists c. split; [|done].
  rewrite Forall_forall in IH. eauto.
Qed.

Lemma iterate_on_call_tree_child root i p f cs c :
  Cnode i p f cs ∈ iterate_on_call_tree root → c ∈ cs →
  c ∈ iterate_on_call_tree root.
Proof.
  intros Hv Hc. eapply iterate_on_call_tree_subtree; [done|].
  rewrite iterate_on_call_tree_unfold. right.
  apply list_elem_of_bind. exists c. split; [apply iterate_on_call_tree_self|done].
Qed.

Lemma covers_subtree {V} (table : Z → option V) root v :
  covers table root → v ∈ iterate_on_call_tree root → covers table v.
Proof.
  unfold covers. rewrite !Forall_forall. intros H Hv u Hu.
  apply H. by eapply iterate_on_call_tree_subtree.
Qed.

(** ** What [aggregate] computes and which look-ups it makes *)

Section Aggregator_facts.
Context {V : Type}.
Variable table : Z → option V.
Variable add : V → V → V.
Variable nothing : V.

Local Abbreviation agg := (aggregate table add).
Local Abbreviation addc := (add_children table add).
Local Abbreviation incl := (inclusive table add nothing).
Local Abbreviation excl := (exclusive table nothing).

Lemma aggregate_unfold i p f cs :
  agg (Cnode i p f cs) = (value ← loc table i; addc cs value).
Proof. reflexivity. Qed.

Lemma add_children_covered cs value :
  Forall (λ c, agg c = (cnode_id <$> iterate_on_call_tree c, Ok (incl c))) cs →
  addc cs value
  = (cs ≫= (λ c, cnode_id <$> iterate_on_call_tree c),
     Ok (foldl (λ acc c, add acc (incl c)) value cs)).
Proof.
  intros H. revert value. induction H as [|c cs Hc _ IH]; intros value; [done|].
  cbn [add_children]. rewrite Hc, Traced_bind_Ok, IH. reflexivity.
Qed.

(** On a covered tree [aggregate] returns the incl value of the
    root after one look-up per node of the tree. *)
Lemma aggregate_covered root :
  covers table root →
  agg root = (cnode_id <$> iterate_on_call_tree root, Ok (incl root)).
Proof.
  induction root as [i p f cs IH] using CallTreeNode_ind. intros Hcov.
  assert (Hcs : Forall (λ c, agg c
             = (cnode_id <$> iterate_on_call_tree c, Ok (incl c))) cs).
  { rewrite Forall_forall in IH |- *. intros c Hc. apply IH; [done|].
    eapply covers_subtree; [done|].
    eapply iterate_on_call_tree_child; [apply iterate_on_call_tree_self|done]. }
  unfold covers in Hcov. rewrite iterate_on_call_tree_unfold in Hcov.
  apply Forall_cons in Hcov as [[e He] _]. cbn in He.
  rewrite aggregate_unfold. unfold loc. rewrite He, Traced_bind_Ok.
  rewrite add_children_covered by done.
  rewrite iterate_on_call_tree_unfold. cbn [inclusive fst snd].
  unfold exclusive. rewrite He. cbn.
  by rewrite fmap_list_bind.
Qed.

(** A look-up of a label that is absent stops [aggregate] with a
    [KeyError], wherever in the subtree the node is. *)
Lemma aggregate_missing root :
  ¬ covers table root → (agg root).2 = Raise KeyError.
Proof.
  induction root as [i p f cs IH] using CallTreeNode_ind. intros Hcov.
  rewrite aggregate_unfold. unfold loc.
  destruct (table i) as [e|] eqn:He; [|done].
  rewrite Traced_bind_Ok. cbn [snd].
  assert (Hcs : ¬ Forall (covers table) cs).
  { intros Hall. apply Hcov. unfold covers.
    rewrite iterate_on_call_tree_unfold. apply Forall_cons. split.
    - cbn. by rewrite He.
    - apply Forall_bind. apply Hall. }
  clear Hcov He. revert e. induction cs as [|c cs IHcs]; intros e.
  { destruct Hcs. constructor. }
  apply Forall_cons in IH as [IHc IH]. cbn [add_children].
  destruct (decide (covers table c)) as [Hc|Hc].
  - rewrite (aggregate_covered c Hc), Traced_bind_Ok. cbn [snd].
    apply IHcs; [done|]. intros Hall. apply Hcs. by constructor.
  - specialize (IHc Hc). destruct (agg c) as [l [v|e']]; cbn in IHc; [done|].
    by rewrite Traced_bind_Raise.
Qed.

Lemma aggregate_all_covered call_tree :
  covers table call_tree →
  aggregate_all table add call_tree
  = (iterate_on_call_tree call_tree ≫= (λ v, cnode_id <$> iterate_on_call_tree v),
     Ok ((λ v, (cnode_id v, incl v)) <$> iterate_on_call_tree call_tree)).
Proof.
  intros Hcov. unfold aggregate_all. apply for_each_Ok.
  apply Forall_forall. intros v Hv.
  rewrite aggregate_covered by (by eapply covers_subtree).
  rewrite Traced_bind_Ok. cbn. by rewrite app_nil_r.
Qed.

Lemma aggregate_all_missing call_tree :
  ¬ covers table call_tree →
  (aggregate_all table add call_tree).2 = Raise KeyError.
Proof.
  intros Hcov. unfold aggregate_all.
  destruct call_tree as [i p f cs]. rewrite iterate_on_call_tree_unfold.
  cbn [for_each]. pose proof (aggregate_missing _ Hcov) as Hr.
  destruct (agg (Cnode i p f cs)) as [l [v|e]]; cbn in Hr; [done|].
  simplify_eq. by rewrite !Traced_bind_Raise.
Qed.

(** With an associative [add] the incl value is the sum over the
    subtree. *)
Hypothesis add_assoc : ∀ x y z, add x (add y z) = add (add x y) z.


End Aggregator_facts.

(** ** Frames assembled from rows *)

Lemma list_to_map_omap_None `{Countable K} {A V} (key : A → K) (val : A → option V)
    (l : list A) (k : K) :
  k ∉ key <$> l →
  (list_to_map (omap (λ x, (key x,.) <$> val x) l) : gmap K V) !! k = None.
Proof.
  intros Hk. apply not_elem_of_list_to_map_1. intros Hin. apply Hk.
  apply list_elem_of_fmap in Hin as ([k' v] & -> & Hin).
  apply list_elem_of_omap in Hin as (x & Hx & Hv).
  destruct (val x); simplify_eq/=. by apply list_elem_of_fmap_2.
Qed.

Lemma list_to_map_omap_lookup `{Countable K} {A V} (key : A → K) (val : A → option V)
    (l : list A) (a : A) :
  NoDup (key <$> l) → a ∈ l →
  (list_to_map (omap (λ x, (key x,.) <$> val x) l) : gmap K V) !! key a = val a.
Proof.
  induction l as [|x l IH]; intros Hnd Ha; [by apply elem_of_nil in Ha|].
  rewrite fmap_cons in Hnd. apply NoDup_cons in Hnd as [Hx Hnd].
  apply elem_of_cons in Ha as [->|Ha].
  - cbn [omap list_omap]. destruct (val x) as [v|] eqn:Hv; cbn.
    + by rewrite lookup_insert_eq.
    + by apply list_to_map_omap_None.
  - assert (key x ≠ key a) as Hne.
    { intros Heq. apply Hx. rewrite Heq. by apply list_elem_of_fmap_2. }
    cbn [omap list_omap]. destruct (val x) as [v|]; cbn.
    + rewrite lookup_insert_ne by done. by apply IH.
    + by apply IH.
Qed.



(** ** Rows *)






(** ** Aggregation additivity *)







(** ** Missing measurements *)

Lemma not_covers_missing {V} (table : Z → option V) call_tree v :
  v ∈ iterate_on_call_tree call_tree → table (cnode_id v) = None →
  ¬ covers table call_tree.
Proof.
  intros Hv Hnone Hcov. unfold covers in Hcov. rewrite Forall_forall in Hcov.
  destruct (Hcov v Hv) as [x Hx]. congruence.
Qed.

Lemma frame_row_None `{Countable K} (f : Frame K) i :
  i ∉ index f → frame_row f i = None.
Proof. intros Hi. unfold frame_row. by rewrite decide_False. Qed.

(** C8.  When a node of the tree has no entry in the exclusive
    measurement, either conversion stops with the [KeyError] of the
    look-up; no value is made up for the node. *)
Theorem convert_to_inclusive_missing_entry (series : gmap Z Z) (df : Frame Z)
    (call_tree v : CallTreeNode) :
  v ∈ iterate_on_call_tree call_tree →
  (series !! cnode_id v = None →
   outcome (convert_series_to_inclusive series call_tree) = Raise KeyError)
  ∧ (cnode_id v ∉ index df →
     outcome (convert_df_to_inclusive df call_tree) = Raise KeyError).
Proof.
  intros Hv. split.
  - intros Hnone. unfold outcome, convert_series_to_inclusive.
    apply (aggregate_all_missing _ _ 0).
    by apply (not_covers_missing (λ i, series !! i) call_tree v).
  - intros Hnone. unfold outcome, convert_df_to_inclusive.
    pose proof (aggregate_all_missing (frame_row df) row_add [] call_tree
      (not_covers_missing (frame_row df) call_tree v Hv (frame_row_None df _ Hnone)))
      as Hr.
    destruct (aggregate_all (frame_row df) row_add call_tree) as [l [rows|e]];
      cbn in Hr; [done|].
    simplify_eq. by rewrite Traced_bind_Raise.
Qed.

(** Without the entry of node C the sample conversion raises. *)
Lemma convert_to_inclusive_missing_entry_witness :
  sample_C ∈ iterate_on_call_tree sample_tree
  ∧ delete 3 sample_series !! cnode_id sample_C = None
  ∧ outcome (convert_series_to_inclusive (delete 3 sample_series) sample_tree)
    = Raise KeyError.
Proof.
  assert (sample_C ∈ iterate_on_call_tree sample_tree) as Hin.
  { cbn. do 2 right. left. }
  assert (delete 3 sample_series !! cnode_id sample_C = None) as Hnone
    by (by vm_compute).
  split; [exact Hin|]. split; [exact Hnone|].
  exact (proj1 (convert_to_inclusive_missing_entry (delete 3 sample_series)
                  sample_frame sample_tree sample_C Hin) Hnone).
Defined.

(** ** The work of the conversions *)

Lemma iterate_on_call_tree_chain n :
  iterate_on_call_tree (chain (S n)) = chain (S n) :: iterate_on_call_tree (chain n).
Proof. cbn [chain]. rewrite iterate_on_call_tree_unfold. cbn. by rewrite app_nil_r. Qed.

Lemma subtree_size_chain n : subtree_size (chain n) = S n.
Proof.
  unfold subtree_size. induction n as [|n IH]; [done|].
  rewrite iterate_on_call_tree_chain. cbn [length]. by rewrite IH.
Qed.

Lemma chain_total_work n :
  (2 * sum_list (subtree_size <$> iterate_on_call_tree (chain n)) = (n + 1) * (n + 2))%nat.
Proof.
  induction n as [|n IH]; [done|].
  rewrite iterate_on_call_tree_chain, fmap_cons. cbn [sum_list sum_list_with].
  rewrite subtree_size_chain. unfold sum_list, id in *. lia.
Qed.

Lemma length_bind_sum {A B} (g : A → list B) (l : list A) :
  length (l ≫= g) = sum_list ((λ x, length (g x)) <$> l).
Proof.
  induction l as [|x l IH]; [done|].
  rewrite bind_cons, length_app, IH. reflexivity.
Qed.

(** C3 (as the code has it).  The conversions keep no table of results.
    For every node of the traversal [aggregate] walks the whole subtree of
    the node again, one look-up per node of the subtree; the look-ups of a
    conversion are the traversals of all subtrees one after the other,
    their number is the sum of the sizes of all subtrees, and on a chain
    of [n + 1] nodes that is [(n + 1) (n + 2) / 2]. *)
Theorem convert_to_inclusive_lookups (series : gmap Z Z) (df : Frame Z)
    (call_tree : CallTreeNode) :
  covers (λ i, series !! i) call_tree →
  lookups (convert_series_to_inclusive series call_tree)
    = iterate_on_call_tree call_tree ≫= (λ v, cnode_id <$> iterate_on_call_tree v)
  ∧ length (lookups (convert_series_to_inclusive series call_tree))
    = sum_list (subtree_size <$> iterate_on_call_tree call_tree)
  ∧ (covers (frame_row df) call_tree →
     lookups (convert_df_to_inclusive df call_tree)
     = iterate_on_call_tree call_tree ≫= (λ v, cnode_id <$> iterate_on_call_tree v))
  ∧ (∀ n, (2 * sum_list (subtree_size <$> iterate_on_call_tree (chain n))
           = (n + 1) * (n + 2))%nat).
Proof.
  intros Hcov.
  assert (lookups (convert_series_to_inclusive series call_tree)
          = iterate_on_call_tree call_tree
              ≫= (λ v, cnode_id <$> iterate_on_call_tree v)) as Hl.
  { unfold lookups, convert_series_to_inclusive.
    by rewrite (aggregate_all_covered _ _ 0 _ Hcov). }
  repeat apply conj.
  - exact Hl.
  - rewrite Hl, length_bind_sum. f_equal. apply list_fmap_ext.
    intros _ v _. unfold subtree_size. by rewrite length_fmap.
  - intros Hdf. unfold lookups, convert_df_to_inclusive.
    rewrite (aggregate_all_covered _ _ [] _ Hdf), Traced_bind_Ok.
    repeat case_decide; cbn; by rewrite app_nil_r.
  - apply chain_total_work.
Qed.

(** The four nodes of the sample tree cost eight look-ups. *)
Lemma convert_to_inclusive_lookups_witness :
  covers (λ i, sample_series !! i) sample_tree
  ∧ lookups (convert_series_to_inclusive sample_series sample_tree)
    = [0; 1; 3; 2; 1; 3; 3; 2].
Proof.
  assert (covers (λ i, sample_series !! i) sample_tree) as Hcov
    by (apply (bool_decide_unpack _); by vm_compute).
  split; [exact Hcov|].
  destruct (convert_to_inclusive_lookups sample_series sample_frame sample_tree Hcov)
    as [-> _].
  reflexivity.
Defined.

(** C3 (as stated) fails: the conversion of the sample tree looks node C
    up three times and makes eight look-ups for four nodes; one visit per
    node would make four. *)
Lemma convert_to_inclusive_revisits :
  lookups (convert_series_to_inclusive sample_series sample_tree)
    = [0; 1; 3; 2; 1; 3; 3; 2]
  ∧ ¬ (lookups (convert_series_to_inclusive sample_series sample_tree)
       ≡ₚ cnode_id <$> iterate_on_call_tree sample_tree)
  ∧ length (lookups (convert_series_to_inclusive sample_series sample_tree))
    ≠ subtree_size sample_tree.
Proof.
  assert (lookups (convert_series_to_inclusive sample_series sample_tree)
          = [0; 1; 3; 2; 1; 3; 3; 2]) as Hl by (by vm_compute).
  split; [exact Hl|]. rewrite Hl. split.
  - intros Hp. apply Permutation_length in Hp. cbn in Hp. lia.
  - cbn. lia.
Qed.

(** ** The metric-set check *)

Lemma elem_of_foldl_intersection `{Countable A} (s : gset A) (ss : list (gset A)) x :
  x ∈ foldl (∩) s ss ↔ x ∈ s ∧ ∀ s', s' ∈ ss → x ∈ s'.
Proof.
  revert s. induction ss as [|s1 ss IH]; intros s; cbn.
  - split; [intros Hx; split; [done|]|by intros [??]].
    intros s' Hs'. by apply elem_of_nil in Hs'.
  - rewrite IH, elem_of_intersection. split.
    + intros [[??] Hss]. split; [done|]. intros s' [->|?]%elem_of_cons; auto.
    + intros [? Hss]. split; [split; [done|]|].
      * apply Hss. left.
      * intros s' Hs'. apply Hss. by right.
Qed.

Lemma set_intersection_spec `{Countable A} (sets : list (gset A)) common x :
  set_intersection sets = Ok common →
  x ∈ common ↔ ∀ s, s ∈ sets → x ∈ s.
Proof.
  destruct sets as [|s ss]; [done|]. intros [= <-].
  rewrite elem_of_foldl_intersection. split.
  - intros [? Hss] s' [->|?]%elem_of_cons; auto.
  - intros Hall. split; [apply Hall; left|]. intros s' Hs'. apply Hall. by right.
Qed.

Lemma elem_of_combinations2 {A} (l : list A) a b :
  (a, b) ∈ combinations2 l
  ↔ ∃ i j, (i < j)%nat ∧ l !! i = Some a ∧ l !! j = Some b.
Proof.
  induction l as [|x l IH]; cbn [combinations2].
  - split; [by intros ?%elem_of_nil|]. by intros (i & j & _ & ? & _).
  - rewrite elem_of_app, IH. split.
    + intros [Hin|(i & j & Hij & Hi & Hj)].
      * apply list_elem_of_fmap in Hin as (y & [= -> ->] & Hy).
        apply list_elem_of_lookup in Hy as [j Hj].
        exists 0%nat, (S j). split; [lia|]. by split.
      * exists (S i), (S j). split; [lia|]. by split.
    + intros (i & j & Hij & Hi & Hj). destruct j as [|j]; [lia|].
      destruct i as [|i]; cbn in Hi, Hj.
      * left. simplify_eq. apply list_elem_of_fmap_2.
        apply list_elem_of_lookup. by exists j.
      * right. exists i, j. split; [lia|]. by split.
Qed.

Lemma assert_disjoint_Ok `{Countable A} (pairs : list (gset A * gset A)) :
  assert_disjoint pairs = Ok tt ↔ Forall (λ p, p.1 ## p.2) pairs.
Proof.
  induction pairs as [|[a b] pairs IH]; cbn [assert_disjoint].
  - split; [constructor|done].
  - rewrite Forall_cons. cbn [fst snd].
    rewrite disjoint_intersection_L, <- (leibniz_equiv_iff (a ∩ b) ∅), <- size_empty_iff.
    case_decide; [by rewrite IH; intuition|].
    split; [done|]. by intros [? _].
Qed.

Lemma assert_disjoint_outcome `{Countable A} (pairs : list (gset A * gset A)) :
  assert_disjoint pairs = Ok tt ∨ assert_disjoint pairs = Raise AssertionError.
Proof.
  induction pairs as [|[a b] pairs IH]; cbn [assert_disjoint]; [by left|].
  case_decide; [done|by right].
Qed.

(** C4.  For two or more sets of metric names [check_column_sets] takes
    the intersection of all the sets as the common names, returns
    normally exactly when the remainders of the sets outside the common
    names are disjoint two by two, and otherwise, exactly when some name
    lies in the remainders of two different sets, fails with an
    [AssertionError]. *)
Theorem check_column_sets_spec (column_sets : list (gset Key)) :
  (2 ≤ length column_sets)%nat →
  ∃ common,
    set_intersection column_sets = Ok common
    ∧ (∀ x, x ∈ common ↔ ∀ s, s ∈ column_sets → x ∈ s)
    ∧ (check_column_sets column_sets = Ok tt
       ↔ ∀ i j si sj, i ≠ j →
           column_sets !! i = Some si → column_sets !! j = Some sj →
           (si ∖ common) ## (sj ∖ common))
    ∧ (check_column_sets column_sets = Raise AssertionError
       ↔ ∃ i j si sj x, i ≠ j ∧
           column_sets !! i = Some si ∧ column_sets !! j = Some sj ∧
           x ∈ si ∖ common ∧ x ∈ sj ∖ common).
Proof.
  intros Hlen. destruct column_sets as [|s ss]; [cbn in Hlen; lia|].
  set (sets := s :: ss). set (common := foldl (∩) s ss).
  exists common.
  assert (set_intersection sets = Ok common) as Hcommon by done.
  assert (check_column_sets sets = Ok tt
          ↔ ∀ i j si sj, i ≠ j → sets !! i = Some si → sets !! j = Some sj →
              (si ∖ common) ## (sj ∖ common)) as Hok.
  { unfold check_column_sets. rewrite Hcommon. cbn [mbind Result_bind].
    rewrite assert_disjoint_Ok, Forall_forall. split.
    - intros Hall i j si sj Hij Hi Hj.
      destruct (decide (i < j)%nat) as [Hlt|Hge].
      + refine (Hall (si ∖ common, sj ∖ common) _).
        apply elem_of_combinations2. exists i, j. split; [done|].
        rewrite !list_lookup_fmap, Hi, Hj. done.
      + symmetry. refine (Hall (sj ∖ common, si ∖ common) _).
        apply elem_of_combinations2. exists j, i. split; [lia|].
        rewrite !list_lookup_fmap, Hi, Hj. done.
    - intros Hall [a b] Hab.
      apply elem_of_combinations2 in Hab as (i & j & Hij & Hi & Hj).
      rewrite list_lookup_fmap in Hi, Hj.
      destruct (sets !! i) as [si|] eqn:Hsi; [|done].
      destruct (sets !! j) as [sj|] eqn:Hsj; [|done].
      cbn in Hi, Hj. simplify_eq. cbn. apply (Hall i j); [lia|done..]. }
  split; [done|]. split; [intros x; by apply set_intersection_spec|].
  split; [done|]. split.
  - intros Hraise.
    destruct (decide (Forall (λ p : gset Key * gset Key, p.1 ## p.2)
                (combinations2 ((λ column_set, column_set ∖ common) <$> sets))))
      as [Hall|Hnot].
    + apply assert_disjoint_Ok in Hall.
      assert (check_column_sets sets = Ok tt) as Hc
        by (unfold check_column_sets; rewrite Hcommon; exact Hall).
      congruence.
    + apply not_Forall_Exists in Hnot; [|apply _].
      apply Exists_exists in Hnot as ([a b] & Hab & Hndisj). cbn in Hndisj.
      apply elem_of_combinations2 in Hab as (i & j & Hij & Hi & Hj).
      rewrite list_lookup_fmap in Hi, Hj.
      destruct (sets !! i) as [si|] eqn:Hsi; [|done].
      destruct (sets !! j) as [sj|] eqn:Hsj; [|done].
      cbn in Hi, Hj. simplify_eq.
      assert (∃ x, x ∈ si ∖ common ∧ x ∈ sj ∖ common) as (x & ? & ?).
      { rewrite disjoint_intersection_L in Hndisj.
        apply set_choose_L in Hndisj as [x Hx]. exists x. set_solver. }
      exists i, j, si, sj, x. split; [lia|]. done.
  - intros (i & j & si & sj & x & Hij & Hi & Hj & Hxi & Hxj).
    destruct (assert_disjoint_outcome
                (combinations2 ((λ column_set, column_set ∖ common) <$> sets)))
      as [Hr|Hr].
    + exfalso. assert (check_column_sets sets = Ok tt) as Hc.
      { unfold check_column_sets. rewrite Hcommon. exact Hr. }
      pose proof (proj1 Hok Hc i j si sj Hij Hi Hj) as Hd.
      by apply (proj1 (elem_of_disjoint _ _) Hd x).
    + unfold check_column_sets. rewrite Hcommon. exact Hr.
Qed.

(** With two sets whatever they share is common, so the pair {a, b, c},
    {a, c, d} passes the check; a clash needs a third set. *)
Lemma check_column_sets_two_sets :
  check_column_sets sample_sets_pair = Ok tt.
Proof. by vm_compute. Qed.

(** Of the three sets {a, b, c}, {a, c, d}, {a, b} only a is common, and
    c lies in the remainders of the first two. *)
Lemma check_column_sets_spec_witness :
  (2 ≤ length sample_sets_clash)%nat
  ∧ check_column_sets sample_sets_clash = Raise AssertionError.
Proof.
  assert (2 ≤ length sample_sets_clash)%nat as Hlen by (cbn; lia).
  split; [exact Hlen|].
  destruct (check_column_sets_spec sample_sets_clash Hlen)
    as (common & Hcommon & _ & _ & Hraise).
  apply Hraise. injection Hcommon as <-.
  exists 0%nat, 1%nat, (metric_set ["a"; "b"; "c"]), (metric_set ["a"; "c"; "d"]),
    [LStr "c"].
  split; [done|]. split; [done|]. split; [done|].
  split; apply (bool_decide_unpack _); by vm_compute.
Defined.

(** ** Metric selection *)

Lemma list_index_lookup {A} `{EqDecision A} (x : A) (l : list A) j :
  list_index x l = Ok j → l !! j = Some x.
Proof.
  revert j. induction l as [|y l IH]; intros j; cbn; [done|].
  case_decide as Hxy; [by intros [= <-]; subst|].
  destruct (list_index x l) as [k|e]; cbn; [|done].
  intros [= <-]. by apply IH.
Qed.

Lemma list_index_elem_of {A} `{EqDecision A} (x : A) (l : list A) :
  x ∈ l → ∃ j, list_index x l = Ok j.
Proof.
  induction 1 as [y l|y z l _ [j IH]]; cbn.
  - exists 0%nat. by rewrite decide_True.
  - case_decide; [by exists 0%nat|]. exists (S j). by rewrite IH.
Qed.

Lemma SetIter_valid_elem_of `{Countable A} (it : SetIter) (s : gset A) x :
  SetIter_valid it → x ∈ iterate it s ↔ x ∈ s.
Proof. intros Hit. unfold iterate. by rewrite (Hit A _ _ s), elem_of_elements. Qed.

Lemma SetIter_valid_NoDup `{Countable A} (it : SetIter) (s : gset A) :
  SetIter_valid it → NoDup (iterate it s).
Proof. intros Hit. unfold iterate. rewrite (Hit A _ _ s). apply NoDup_elements. Qed.

Lemma SetIter_valid_Permutation `{Countable A} (it1 it2 : SetIter) (s : gset A) :
  SetIter_valid it1 → SetIter_valid it2 → iterate it1 s ≡ₚ iterate it2 s.
Proof. intros H1 H2. unfold iterate. by rewrite (H1 A _ _ s), (H2 A _ _ s). Qed.

(** Picking the columns label by label, over labels without repetition,
    yields the columns that carry one of the labels. *)
Lemma bind_filter_Permutation {A B} `{EqDecision B} (key : A → option B)
    (labels : list B) (l : list A) :
  NoDup labels →
  labels ≫= (λ b, filter (λ a, key a = Some b) l)
  ≡ₚ filter (λ a, label_among labels (key a)) l.
Proof.
  intros Hnd. induction Hnd as [|b labels Hb Hnd IH].
  - cbn. induction l as [|a l IHl]; [done|].
    rewrite filter_cons_False; [done|].
    destruct (key a); cbn; [by intros ?%elem_of_nil|tauto].
  - rewrite bind_cons, IH. clear IH.
    induction l as [|a l IHl]; [done|].
    rewrite !(filter_cons _ a).
    destruct (key a) as [b'|] eqn:Hka; cbn [label_among].
    2:{ rewrite !decide_False by done. exact IHl. }
    destruct (decide (b' = b)) as [->|Hne].
    + rewrite (decide_True (P:=Some b = Some b)) by done.
      rewrite (decide_False (P:=b ∈ labels)) by done.
      rewrite (decide_True (P:=b ∈ b :: labels)) by left.
      cbn. by rewrite IHl.
    + rewrite (decide_False (P:=Some b' = Some b)) by congruence.
      destruct (decide (b' ∈ labels)) as [Hin|Hnin].
      * rewrite ?(decide_True (P:=b' ∈ labels)) by done.
        rewrite (decide_True (P:=b' ∈ b :: labels)) by (by right).
        rewrite <- Permutation_middle. by rewrite IHl.
      * rewrite ?(decide_False (P:=b' ∈ labels)) by done.
        rewrite (decide_False (P:=b' ∈ b :: labels)); [done|].
        by intros [?|?]%elem_of_cons.
Qed.

(** C7.  When the columns have a level named "metric", [select_metrics]
    returns, without error, the frame with the same rows whose columns are
    those columns of the input whose metric is one of the requested names;
    a requested name that no column carries selects nothing. *)
Theorem select_metrics_spec `{Countable K} (set_iter : SetIter) (df : Frame K)
    (selected_metrics : list Label) :
  SetIter_valid set_iter →
  Some "metric"%string ∈ names df →
  ∃ metric_level res,
    names df !! metric_level = Some (Some "metric"%string)
    ∧ select_metrics set_iter df selected_metrics = Ok res
    ∧ index res = index df
    ∧ names res = names df
    ∧ cols res ≡ₚ filter (λ c, label_among selected_metrics (c.1 !! metric_level))
                         (cols df)
    ∧ (∀ c, c ∈ cols res ↔
            c ∈ cols df ∧ ∃ m, m ∈ selected_metrics ∧ c.1 !! metric_level = Some m).
Proof.
  intros Hit Hmetric.
  destruct (list_index_elem_of _ _ Hmetric) as [j Hj].
  set (possible := list_to_set (C:=gset Label) selected_metrics ∩ level_values df j).
  assert (cols (loc_level df j (iterate set_iter possible))
          ≡ₚ filter (λ c, label_among selected_metrics (c.1 !! j)) (cols df))
    as Hperm.
  { cbn [loc_level cols].
    rewrite (bind_filter_Permutation (λ c : Key * gmap K Z, c.1 !! j))
      by (by apply SetIter_valid_NoDup).
    apply reflexive_eq, filter_ext_elem_of. intros c Hc.
    destruct (c.1 !! j) as [m|] eqn:Hcm; cbn [label_among]; [|done].
    rewrite (SetIter_valid_elem_of set_iter possible m Hit).
    unfold possible, level_values.
    rewrite elem_of_intersection, !elem_of_list_to_set, list_elem_of_omap.
    split; [by intros [? _]|]. intros Hm. split; [done|]. by exists c. }
  exists j, (loc_level df j (iterate set_iter possible)).
  split; [by apply list_index_lookup|].
  split; [unfold select_metrics; by rewrite Hj|].
  split; [done|]. split; [done|]. split; [exact Hperm|].
  intros c. rewrite Hperm, list_elem_of_filter.
  destruct (c.1 !! j) as [m|]; cbn [label_among].
  - split; [intros [??]; split; [done|by exists m]|].
    intros [? (m' & ? & [= ->])]. done.
  - split; [by intros [[] _]|]. by intros [_ (m' & _ & ?)].
Qed.

Lemma iter_elements_valid : SetIter_valid iter_elements.
Proof. by intros A ?? s. Qed.

Lemma iter_reverse_valid : SetIter_valid iter_reverse.
Proof. intros A ?? s. apply reverse_Permutation. Qed.

(** The example of the specification: "time" and "bogus" requested from
    a table that only has "time". *)
Lemma select_metrics_spec_witness :
  SetIter_valid iter_elements
  ∧ Some "metric"%string ∈ names sample_time_frame
  ∧ ∃ res, select_metrics iter_elements sample_time_frame [LStr "time"; LStr "bogus"]
           = Ok res
           ∧ columns res = [[LInt 0; LStr "time"; LInt 0]].
Proof.
  assert (Some "metric"%string ∈ names sample_time_frame) as Hin
    by (cbn; right; left).
  split; [exact iter_elements_valid|]. split; [exact Hin|].
  destruct (select_metrics_spec iter_elements sample_time_frame
              [LStr "time"; LStr "bogus"] iter_elements_valid Hin)
    as (j & res & Hj & Hsel & _ & _ & Hperm & _).
  exists res. split; [exact Hsel|].
  assert (j = 1%nat) as ->.
  { destruct j as [|[|[|j]]]; cbn in Hj; by simplify_eq. }
  apply Permutation_singleton_r in Hperm. unfold columns. by rewrite Hperm.
Defined.

(** ** Frame operations *)

Lemma traverse_Ok {A B} (f : A → Result B) (l : list A) (l' : list B) :
  traverse f l = Ok l' ↔ Forall2 (λ x y, f x = Ok y) l l'.
Proof.
  revert l'. induction l as [|x l IH]; intros l'; cbn.
  - split; [intros [= <-]; constructor|by intros ->%Forall2_nil_inv_l].
  - destruct (f x) as [y|e] eqn:Hx; cbn.
    + destruct (traverse f l) as [ys|e]; cbn.
      * split.
        -- intros [= <-]. constructor; [done|]. by apply IH.
        -- intros (y' & ys' & Hy & Hys & ->)%Forall2_cons_inv_l.
           apply (proj2 (IH _)) in Hys. congruence.
      * split; [done|].
        intros (y' & ys' & Hy & Hys & ->)%Forall2_cons_inv_l.
        by apply (proj2 (IH _)) in Hys.
    + split; [done|].
      intros (y' & ys' & Hy & Hys & ->)%Forall2_cons_inv_l. congruence.
Qed.

(** When every element goes through, so does the list. *)
Lemma traverse_is_Ok {A B} (f : A → Result B) (l : list A) :
  Forall (λ x, is_Ok (f x)) l → is_Ok (traverse f l).
Proof.
  induction 1 as [|x l [y Hy] _ [ys IH]]; cbn; [by eexists|].
  rewrite Hy, IH. by eexists.
Qed.

(** A traversal that keeps the index of each frame keeps the list of
    indexes. *)
Lemma traverse_index `{Countable K} {A} (f : A → Result (Frame K))
    (proj : A → Frame K) (l : list A) (l' : list (Frame K)) :
  (∀ x y, f x = Ok y → index y = index (proj x)) →
  traverse f l = Ok l' → index <$> l' = (index ∘ proj) <$> l.
Proof.
  intros Hf Hl. apply traverse_Ok in Hl.
  induction Hl as [|x y l l' Hxy _ IH]; [done|].
  cbn. by rewrite (Hf x y Hxy), IH.
Qed.

Lemma snd_imap_pair {A} (l : list A) : (imap pair l).*2 = l.
Proof.
  apply list_eq. intros j. rewrite list_lookup_fmap, list_lookup_imap.
  by destruct (l !! j).
Qed.

Lemma loc_columns_Ok `{Countable K} (f g : Frame K) labels :
  loc_columns f labels = Ok g →
  index g = index f ∧ names g = names f
  ∧ cols g = labels ≫= (λ l, filter (λ c, c.1 = l) (cols f))
  ∧ Forall (λ l, l ∈ columns f) labels.
Proof. unfold loc_columns. case_decide; [|done]. by intros [= <-]. Qed.

Lemma set_columns_Ok `{Countable K} nms labels (f g : Frame K) :
  set_columns nms labels f = Ok g →
  index g = index f ∧ names g = nms ∧ cols g = zip labels (cols f).*2
  ∧ length labels = length (cols f).
Proof. unfold set_columns. case_decide; [|done]. by intros [= <-]. Qed.

Lemma concat_columns_Ok `{Countable K} (frames : list (Frame K)) g :
  concat_columns frames = Ok g →
  (∀ k, k ∈ index g ↔ ∀ s, s ∈ index <$> frames → k ∈ s)
  ∧ cols g = frames ≫= (λ f, restrict_rows (index g) <$> cols f)
  ∧ names <$> frames !! 0%nat = Some (names g).
Proof.
  destruct frames as [|f fs]; [done|]. intros [= <-]. cbn [index cols names].
  split; [|done]. intros k. rewrite elem_of_foldl_intersection, fmap_cons. split.
  - intros [? Hfs] s [->|?]%elem_of_cons; auto.
  - intros Hall. split; [apply Hall; left|]. intros s Hs. apply Hall. by right.
Qed.

(** A value of a concatenated frame sits on a row of the frame. *)
Lemma concat_columns_cells `{Countable K} (frames : list (Frame K)) g c k v :
  concat_columns frames = Ok g → c ∈ cols g → c.2 !! k = Some v → k ∈ index g.
Proof.
  intros (_ & Hcols & _)%concat_columns_Ok Hc Hv. rewrite Hcols in Hc.
  apply list_elem_of_bind in Hc as (f & Hc & _).
  apply list_elem_of_fmap in Hc as (c0 & -> & _).
  unfold restrict_rows in Hv. cbn in Hv.
  by apply map_lookup_filter_Some in Hv as [_ ?].
Qed.

Lemma adjust_df_Ok (d : CubexDf) f :
  adjust_df d = Ok f →
  index f = run_keys d ∧ NoDup (row_key <$> df_rows d)
  ∧ columns f = (λ m, [LStr m]) <$> df_metrics d.
Proof.
  unfold adjust_df. case_decide; [|done]. intros [= <-].
  split; [done|]. split; [done|]. unfold columns. cbn [cols].
  apply list_eq. intros j.
  rewrite !list_lookup_fmap, list_lookup_imap. by destruct (df_metrics d !! j).
Qed.

(** ** The rows of the merged tables *)

Section Merge_rows.
Variable set_iter : SetIter.

Lemma merge_common_Ok dfs2 g :
  merge_common set_iter dfs2 = Ok g →
  (∀ k, k ∈ index g ↔ ∀ s, s ∈ index <$> dfs2 → k ∈ s)
  ∧ (∀ c k v, c ∈ cols g → c.2 !! k = Some v → k ∈ index g).
Proof.
  unfold merge_common.
  destruct (set_intersection _) as [common|e]; [|done]. cbn [mbind Result_bind].
  destruct (traverse _ dfs2) as [l1|e] eqn:H1; [|done]. cbn [mbind Result_bind].
  destruct (traverse _ (imap pair l1)) as [l2|e] eqn:H2; [|done].
  cbn [mbind Result_bind]. intros Hg.
  apply (traverse_index _ id) in H1.
  2:{ intros x y Hxy. by apply loc_columns_Ok in Hxy as [? _]. }
  apply (traverse_index _ snd) in H2.
  2:{ intros x y Hxy. by apply set_columns_Ok in Hxy as [? _]. }
  rewrite list_fmap_compose, snd_imap_pair in H2.
  split.
  - destruct (concat_columns_Ok _ _ Hg) as [Hidx _]. intros k.
    rewrite Hidx, H2, H1. done.
  - intros c k v. by apply (concat_columns_cells _ _ _ _ _ Hg).
Qed.

Lemma merge_noncommon_Ok dfs2 g :
  merge_noncommon set_iter dfs2 = Ok g →
  (∀ k, k ∈ index g ↔ ∀ s, s ∈ index <$> dfs2 → k ∈ s)
  ∧ (∀ c k v, c ∈ cols g → c.2 !! k = Some v → k ∈ index g).
Proof.
  unfold merge_noncommon.
  destruct (set_intersection _) as [common|e]; [|done]. cbn [mbind Result_bind].
  destruct (traverse _ _) as [l1|e] eqn:H1; [|done]. cbn [mbind Result_bind].
  intros Hg. apply (traverse_index _ fst) in H1.
  2:{ intros x y Hxy. by apply loc_columns_Ok in Hxy as [? _]. }
  rewrite list_fmap_compose, fst_zip in H1 by (by rewrite !length_fmap).
  split.
  - destruct (concat_columns_Ok _ _ Hg) as [Hidx _]. intros k.
    rewrite Hidx, H1. done.
  - intros c k v. by apply (concat_columns_cells _ _ _ _ _ Hg).
Qed.
End Merge_rows.

(** ** Re-keying by Cnode ID *)

Lemma elem_of_index_unstack_thread (f : Frame (string * Z)) p :
  p ∈ index (unstack_thread f) ↔ ∃ t, (p, t) ∈ index f.
Proof.
  cbn [unstack_thread index]. rewrite elem_of_map. split.
  - intros ([p' t] & -> & Hin). by exists t.
  - intros [t Hin]. by exists (p, t).
Qed.

Lemma elem_of_thread_labels (idx : gset (string * Z)) t :
  t ∈ thread_labels idx ↔ ∃ p, (p, t) ∈ idx.
Proof.
  unfold thread_labels. rewrite merge_sort_Permutation, elem_of_elements, elem_of_map.
  split.
  - intros ([p t'] & -> & Hin). by exists p.
  - intros [p Hin]. by exists (p, t).
Qed.

Lemma elem_of_index_join_set_index (tmp : list (string * Z)) (f : Frame string) id :
  id ∈ index (join_set_index tmp f) ↔ ∃ p, p ∈ index f ∧ (p, id) ∈ tmp.
Proof.
  cbn [join_set_index index]. rewrite elem_of_list_to_set, list_elem_of_fmap. split.
  - intros ([p id'] & -> & [Hp Hin]%list_elem_of_filter). by exists p.
  - intros (p & Hp & Hin). exists (p, id). split; [done|].
    by apply list_elem_of_filter.
Qed.

Lemma elem_of_index_replace (tmp : list (string * Z)) (df : Frame (string * Z)) id :
  id ∈ index (replace_fcpath_with_cnodeID tmp df)
  ↔ ∃ p t, (p, t) ∈ index df ∧ (p, id) ∈ tmp.
Proof.
  unfold replace_fcpath_with_cnodeID. rewrite elem_of_index_join_set_index. split.
  - intros (p & [t Hpt]%elem_of_index_unstack_thread & Hin). by exists p, t.
  - intros (p & t & Hpt & Hin). exists p. split; [|done].
    apply elem_of_index_unstack_thread. by exists t.
Qed.

Lemma unstack_column_lookup (c : Key * gmap (string * Z) Z) t p :
  (unstack_column c t).2 !! p = c.2 !! (p, t).
Proof.
  unfold unstack_column. cbn [snd]. by rewrite lookup_omap, lookup_map_curry.
Qed.

Lemma rekey_column_lookup_Some (pairs : list (string * Z)) (c : Key * gmap string Z) id v :
  (rekey_column pairs c).2 !! id = Some v →
  ∃ p, (p, id) ∈ pairs ∧ c.2 !! p = Some v.
Proof.
  unfold rekey_column. cbn [snd]. intros Hv%elem_of_list_to_map_2.
  apply list_elem_of_omap in Hv as ([p id'] & Hin & Hv). cbn in Hv.
  destruct (c.2 !! p) as [v'|] eqn:Hp; simplify_eq/=. by exists p.
Qed.

Lemma rekey_column_lookup (pairs : list (string * Z)) (c : Key * gmap string Z) p id :
  NoDup pairs.*2 → (p, id) ∈ pairs →
  (rekey_column pairs c).2 !! id = c.2 !! p.
Proof.
  intros Hnd Hin. unfold rekey_column. cbn [snd].
  apply (list_to_map_omap_lookup snd (λ pi, c.2 !! pi.1) pairs (p, id) Hnd Hin).
Qed.

(** A value of the re-keyed frame is a value of the frame at a callpath
    that the call-tree table knows. *)
Lemma replace_cells_Some (tmp : list (string * Z)) (df : Frame (string * Z)) c' id v :
  c' ∈ cols (replace_fcpath_with_cnodeID tmp df) → c'.2 !! id = Some v →
  ∃ c t p, c ∈ cols df ∧ c'.1 = c.1 ++ [LInt t] ∧ (p, id) ∈ tmp
           ∧ c.2 !! (p, t) = Some v.
Proof.
  cbn [replace_fcpath_with_cnodeID join_set_index unstack_thread cols index].
  intros Hc' Hv. apply list_elem_of_fmap in Hc' as (c1 & -> & Hc1).
  apply list_elem_of_bind in Hc1 as (c & Hc1 & Hc).
  apply list_elem_of_fmap in Hc1 as (t & -> & Ht).
  apply rekey_column_lookup_Some in Hv as (p & [_ Hin]%list_elem_of_filter & Hv).
  rewrite unstack_column_lookup in Hv. by exists c, t, p.
Qed.

(** With one callpath per Cnode ID, every value of the frame at a known
    callpath is found again under the Cnode ID of the callpath. *)
Lemma replace_cells_lookup (tmp : list (string * Z)) (df : Frame (string * Z)) c t p id :
  NoDup tmp.*2 → c ∈ cols df → (p, t) ∈ index df → (p, id) ∈ tmp →
  ∃ c', c' ∈ cols (replace_fcpath_with_cnodeID tmp df)
        ∧ c'.1 = c.1 ++ [LInt t] ∧ c'.2 !! id = c.2 !! (p, t).
Proof.
  intros Hnd Hc Hpt Hin.
  set (pairs := filter (λ pi : string * Z, pi.1 ∈ index (unstack_thread df)) tmp).
  exists (rekey_column pairs (unstack_column c t)). split; [|split; [done|]].
  - cbn [replace_fcpath_with_cnodeID join_set_index unstack_thread cols index].
    apply list_elem_of_fmap_2, list_elem_of_bind. exists c. split; [|done].
    apply list_elem_of_fmap_2, elem_of_thread_labels. by exists p.
  - rewrite (rekey_column_lookup pairs _ p id), unstack_column_lookup; [done| |].
    + eapply sublist_NoDup; [exact Hnd|]. apply fmap_sublist, sublist_filter.
    + apply list_elem_of_filter. split; [|done].
      apply elem_of_index_unstack_thread. by exists t.
Qed.

(** ** [process_multi] *)

Section Process_multi.
Variable get_call_tree : string → CallTreeNode.
Variable calltree_to_df2 : CallTreeNode → list TreeRow.
Variable get_dump : string → Dump.
Variable get_inclusive_convertible_metrics : string → list string.
Variable set_iter : SetIter.

Local Abbreviation cubex :=
  (process_cubex get_call_tree calltree_to_df2 get_dump
                 get_inclusive_convertible_metrics).
Local Abbreviation multi :=
  (process_multi get_call_tree calltree_to_df2 get_dump
                 get_inclusive_convertible_metrics set_iter).

Lemma process_multi_Ok profile_files call_tree df_common df_noncommon :
  multi profile_files = Ok (call_tree, df_common, df_noncommon) →
  ∃ first_file rest dfs2 dfc0 dfn0,
    profile_files = first_file :: rest
    ∧ traverse adjust_df ((λ pf, df (cubex pf)) <$> profile_files) = Ok dfs2
    ∧ merge_common set_iter dfs2 = Ok dfc0
    ∧ merge_noncommon set_iter dfs2 = Ok dfn0
    ∧ call_tree = calltree (cubex first_file)
    ∧ df_common = replace_fcpath_with_cnodeID
                    (callpath_index (calltree_df (cubex first_file))) dfc0
    ∧ df_noncommon = replace_fcpath_with_cnodeID
                       (callpath_index (calltree_df (cubex first_file))) dfn0.
Proof.
  unfold process_multi. destruct profile_files as [|first_file rest]; [done|].
  destruct (traverse adjust_df _) as [dfs2|e] eqn:H2; [|done]. cbn [mbind Result_bind].
  destruct (merge_common set_iter dfs2) as [dfc0|e] eqn:Hc; [|done].
  cbn [mbind Result_bind].
  destruct (merge_noncommon set_iter dfs2) as [dfn0|e] eqn:Hn; [|done].
  cbn [mbind Result_bind]. intros [= <- <- <-].
  by exists first_file, rest, dfs2, dfc0, dfn0.
Qed.

(** The row keys of the adjusted tables are those of the runs. *)
Lemma adjusted_indexes profile_files dfs2 :
  traverse adjust_df ((λ pf, df (cubex pf)) <$> profile_files) = Ok dfs2 →
  index <$> dfs2 = (λ pf, run_keys (df (cubex pf))) <$> profile_files.
Proof.
  intros H2. apply (traverse_index _ (λ d, mkFrame (run_keys d) [] [])) in H2.
  - rewrite H2, <- list_fmap_compose. done.
  - intros d f Hf. by apply adjust_df_Ok in Hf as [? _].
Qed.
Lemma merged_indexes profile_files dfs2 dfc0 dfn0 :
  traverse adjust_df ((λ pf, df (cubex pf)) <$> profile_files) = Ok dfs2 →
  merge_common set_iter dfs2 = Ok dfc0 →
  merge_noncommon set_iter dfs2 = Ok dfn0 →
  (∀ k, k ∈ index dfc0 ↔ ∀ pf, pf ∈ profile_files → k ∈ run_keys (df (cubex pf)))
  ∧ index dfn0 = index dfc0.
Proof.
  intros H2 Hc Hn.
  assert (∀ k, (∀ s, s ∈ index <$> dfs2 → k ∈ s)
               ↔ ∀ pf, pf ∈ profile_files → k ∈ run_keys (df (cubex pf))) as Hruns.
  { intros k. rewrite (adjusted_indexes _ _ H2). split.
    - intros Hall pf Hpf. apply Hall.
      by apply (list_elem_of_fmap_2 (λ pf, run_keys (df (cubex pf)))).
    - intros Hall s (pf & -> & Hpf)%list_elem_of_fmap. by apply Hall. }
  destruct (merge_common_Ok _ _ _ Hc) as [Hic _].
  destruct (merge_noncommon_Ok _ _ _ Hn) as [Hin _].
  split.
  - intros k. by rewrite Hic, Hruns.
  - apply set_eq. intros k. by rewrite Hic, Hin.
Qed.


(** Once the tables are merged nothing can fail any more. *)
Lemma process_multi_of_merged first_file rest dfs2 dfc0 dfn0 :
  traverse adjust_df ((λ pf, df (cubex pf)) <$> first_file :: rest) = Ok dfs2 →
  merge_common set_iter dfs2 = Ok dfc0 →
  merge_noncommon set_iter dfs2 = Ok dfn0 →
  multi (first_file :: rest)
  = Ok (calltree (cubex first_file),
        replace_fcpath_with_cnodeID
          (callpath_index (calltree_df (cubex first_file))) dfc0,
        replace_fcpath_with_cnodeID
          (callpath_index (calltree_df (cubex first_file))) dfn0).
Proof.
  intros H2 Hc Hn. unfold process_multi. rewrite H2. cbn [mbind Result_bind].
  rewrite Hc. cbn [mbind Result_bind]. by rewrite Hn.
Qed.

(** The callpaths of the table of a run are callpaths of its call-tree
    table: [process_cubex] takes them from there. *)
Lemma run_keys_callpath profile_file p t :
  (p, t) ∈ run_keys (df (cubex profile_file)) →
  ∃ id, (p, id) ∈ callpath_index (calltree_df (cubex profile_file)).
Proof.
  unfold run_keys. rewrite elem_of_list_to_set.
  intros ([d r] & Hkey & Hin)%list_elem_of_fmap.
  cbn [process_cubex df merge_on_cnode df_rows] in Hin.
  apply list_elem_of_bind in Hin as (d' & Hin & _).
  apply list_elem_of_fmap in Hin as (r' & [= -> ->] & [_ Hr]%list_elem_of_filter).
  unfold row_key in Hkey. cbn in Hkey. simplify_eq.
  exists (Cnode_ID r'). unfold callpath_index. cbn [process_cubex calltree_df].
  by apply (list_elem_of_fmap_2 (λ r, (Full_Callpath r, Cnode_ID r))).
Qed.

(** C6.  Once the tables of the runs are merged, [process_multi] cannot
    fail any more: it returns the call tree of the first file and the two
    merged tables re-keyed with the callpath index [tmp] of the first
    file, whatever the other files' call trees are.  A Cnode ID is a row
    of a re-keyed table exactly when [tmp] gives it to a callpath of the
    table; every value of a re-keyed table is the value of the table at a
    callpath that [tmp] knows, so the rows of other callpaths are left
    out; and when [tmp] has one callpath per Cnode ID, every value at a
    known callpath is kept under its Cnode ID.  The callpaths of the
    common table are all known to [tmp]. *)
Theorem process_multi_rekeys_by_first_run first_file rest dfs2 dfc0 dfn0 :
  traverse adjust_df ((λ pf, df (cubex pf)) <$> first_file :: rest) = Ok dfs2 →
  merge_common set_iter dfs2 = Ok dfc0 →
  merge_noncommon set_iter dfs2 = Ok dfn0 →
  let tmp := callpath_index (calltree_df (cubex first_file)) in
  multi (first_file :: rest)
    = Ok (calltree (cubex first_file),
          replace_fcpath_with_cnodeID tmp dfc0,
          replace_fcpath_with_cnodeID tmp dfn0)
  ∧ (∀ df0 : Frame (string * Z),
       (∀ id, id ∈ index (replace_fcpath_with_cnodeID tmp df0)
              ↔ ∃ p t, (p, t) ∈ index df0 ∧ (p, id) ∈ tmp)
       ∧ (∀ c' id v,
            c' ∈ cols (replace_fcpath_with_cnodeID tmp df0) → c'.2 !! id = Some v →
            ∃ c t p, c ∈ cols df0 ∧ c'.1 = c.1 ++ [LInt t] ∧ (p, id) ∈ tmp
                     ∧ c.2 !! (p, t) = Some v)
       ∧ (NoDup tmp.*2 →
          ∀ c t p id, c ∈ cols df0 → (p, t) ∈ index df0 → (p, id) ∈ tmp →
            ∃ c', c' ∈ cols (replace_fcpath_with_cnodeID tmp df0)
                  ∧ c'.1 = c.1 ++ [LInt t] ∧ c'.2 !! id = c.2 !! (p, t)))
  ∧ (∀ p t, (p, t) ∈ index dfc0 → ∃ id, (p, id) ∈ tmp).
Proof.
  intros H2 Hc Hn tmp. split; [|split].
  - by apply (process_multi_of_merged _ _ dfs2).
  - intros df0. split; [intros id; apply elem_of_index_replace|]. split.
    + apply replace_cells_Some.
    + intros Hnd c t p id. by apply replace_cells_lookup.
  - intros p t Hpt. apply (run_keys_callpath first_file p t).
    destruct (merged_indexes _ _ _ _ H2 Hc Hn) as [Hkeys _].
    apply Hkeys; [done|left].
Qed.
End Process_multi.


(** On the three sample runs the merge is re-keyed with the callpath
    index of run 0. *)
Lemma process_multi_rekeys_by_first_run_witness :
  traverse adjust_df
    ((λ pf, df (process_cubex (λ _, sample_tree) (tree_rows "") sample_dump
                  (λ _, []) pf)) <$> "run0"%string :: ["run1"; "run2"]%string)
    = Ok sample_dfs2
  ∧ merge_common iter_elements sample_dfs2 = Ok sample_dfc0
  ∧ merge_noncommon iter_elements sample_dfs2 = Ok sample_dfn0
  ∧ ∀ p t, (p, t) ∈ index sample_dfc0 →
           ∃ id, (p, id) ∈ callpath_index
                   (calltree_df (process_cubex (λ _, sample_tree) (tree_rows "")
                                   sample_dump (λ _, []) "run0"%string)).
Proof.
  assert (traverse adjust_df
            ((λ pf, df (process_cubex (λ _, sample_tree) (tree_rows "") sample_dump
                          (λ _, []) pf)) <$> "run0"%string :: ["run1"; "run2"]%string)
          = Ok sample_dfs2) as H2
    by (apply (bool_decide_unpack _); by vm_compute).
  assert (merge_common iter_elements sample_dfs2 = Ok sample_dfc0) as Hc
    by (apply (bool_decide_unpack _); by vm_compute).
  assert (merge_noncommon iter_elements sample_dfs2 = Ok sample_dfn0) as Hn
    by (apply (bool_decide_unpack _); by vm_compute).
  split; [exact H2|]. split; [exact Hc|]. split; [exact Hn|].
  pose proof (process_multi_rekeys_by_first_run (λ _, sample_tree) (tree_rows "")
                sample_dump (λ _, []) iter_elements "run0"%string
                ["run1"; "run2"]%string sample_dfs2 sample_dfc0 sample_dfn0
                H2 Hc Hn) as H.
  exact (proj2 (proj2 H)).
Defined.

(** ** [process_multi] checks no partition *)

Lemma traverse_Raise {A B} (f : A → Result B) (l : list A) e :
  traverse f l = Raise e → ∃ x, x ∈ l ∧ f x = Raise e.
Proof.
  induction l as [|x l IH]; cbn; [done|].
  destruct (f x) as [y|e'] eqn:Hx; cbn.
  - destruct (traverse f l) as [ys|e'']; cbn; [done|].
    intros [= ->]. destruct IH as (x' & ? & ?); [done|].
    exists x'. split; [by right|done].
  - intros [= ->]. exists x. split; [left|done].
Qed.

Lemma adjust_df_Raise d e : adjust_df d = Raise e → e = ValueError.
Proof. unfold adjust_df. case_decide; [done|]. by intros [= <-]. Qed.

Lemma loc_columns_Raise `{Countable K} (f : Frame K) labels e :
  loc_columns f labels = Raise e → e = KeyError.
Proof. unfold loc_columns. case_decide; [done|]. by intros [= <-]. Qed.

Lemma set_columns_Raise `{Countable K} nms labels (f : Frame K) e :
  set_columns nms labels f = Raise e → e = ValueError.
Proof. unfold set_columns. case_decide; [done|]. by intros [= <-]. Qed.

Lemma concat_columns_Raise `{Countable K} (frames : list (Frame K)) e :
  concat_columns frames = Raise e → e = ValueError.
Proof. destruct frames; [|done]. by intros [= <-]. Qed.

Lemma set_intersection_Raise `{Countable A} (sets : list (gset A)) e :
  set_intersection sets = Raise e → e = TypeError.
Proof. destruct sets; [|done]. by intros [= <-]. Qed.

Lemma merge_common_Raise set_iter dfs2 e :
  merge_common set_iter dfs2 = Raise e → e ≠ AssertionError.
Proof.
  unfold merge_common.
  destruct (set_intersection _) as [common|e'] eqn:Hs; cbn [mbind Result_bind].
  2:{ intros [= <-]. by apply set_intersection_Raise in Hs as ->. }
  destruct (traverse _ dfs2) as [l1|e'] eqn:H1; cbn [mbind Result_bind].
  2:{ intros [= <-]. apply traverse_Raise in H1 as (x & _ & Hx).
      by apply loc_columns_Raise in Hx as ->. }
  destruct (traverse _ (imap pair l1)) as [l2|e'] eqn:H2; cbn [mbind Result_bind].
  2:{ intros [= <-]. apply traverse_Raise in H2 as (x & _ & Hx).
      by apply set_columns_Raise in Hx as ->. }
  by intros ->%concat_columns_Raise.
Qed.

Lemma merge_noncommon_Raise set_iter dfs2 e :
  merge_noncommon set_iter dfs2 = Raise e → e ≠ AssertionError.
Proof.
  unfold merge_noncommon.
  destruct (set_intersection _) as [common|e'] eqn:Hs; cbn [mbind Result_bind].
  2:{ intros [= <-]. by apply set_intersection_Raise in Hs as ->. }
  destruct (traverse _ _) as [l1|e'] eqn:H1; cbn [mbind Result_bind].
  2:{ intros [= <-]. apply traverse_Raise in H1 as (x & _ & Hx).
      by apply loc_columns_Raise in Hx as ->. }
  by intros ->%concat_columns_Raise.
Qed.

Lemma filter_label_nil `{Countable K} (l : list (Key * gmap K Z)) x :
  x ∉ l.*1 → filter (λ c, c.1 = x) l = [].
Proof.
  induction l as [|c l IH]; [done|]. rewrite fmap_cons, not_elem_of_cons.
  intros [Hne Hx]. rewrite filter_cons_False by done. by apply IH.
Qed.

(** In a frame with distinct column labels a label selects one column. *)
Lemma filter_label_singleton `{Countable K} (l : list (Key * gmap K Z)) x :
  NoDup l.*1 → x ∈ l.*1 → ∃ c, filter (λ c, c.1 = x) l = [c] ∧ c.1 = x.
Proof.
  induction l as [|c l IH]; [by intros _ ?%elem_of_nil|].
  rewrite fmap_cons. intros [Hc Hnd]%NoDup_cons [Hx|Hx]%elem_of_cons.
  - exists c. split; [|done]. rewrite filter_cons_True by done.
    rewrite filter_label_nil; [done|]. by rewrite Hx.
  - destruct (IH Hnd Hx) as (c' & Hf & Hc'). exists c'. split; [|done].
    rewrite filter_cons_False; [done|]. intros Heq. apply Hc. by rewrite Heq.
Qed.

Lemma loc_columns_labels `{Countable K} (l : list (Key * gmap K Z)) labels :
  NoDup l.*1 → Forall (λ x, x ∈ l.*1) labels →
  (labels ≫= (λ x, filter (λ c, c.1 = x) l)).*1 = labels.
Proof.
  intros Hnd. induction 1 as [|x labels Hx _ IH]; [done|].
  rewrite bind_cons, fmap_app, IH.
  destruct (filter_label_singleton l x Hnd Hx) as (c & -> & <-). done.
Qed.

(** Selecting columns by the iteration of a subset of the column labels
    goes through and yields exactly these labels. *)
Lemma loc_columns_subset `{Countable K} (set_iter : SetIter) (f : Frame K)
    (s : gset Key) :
  SetIter_valid set_iter → NoDup (columns f) → s ⊆ list_to_set (columns f) →
  ∃ g, loc_columns f (iterate set_iter s) = Ok g
       ∧ columns g = iterate set_iter s ∧ index g = index f.
Proof.
  intros Hit Hnd Hs.
  assert (Forall (λ l, l ∈ columns f) (iterate set_iter s)) as Hall.
  { apply Forall_forall. intros l Hl.
    apply (SetIter_valid_elem_of set_iter s l Hit) in Hl.
    apply Hs in Hl. by apply elem_of_list_to_set in Hl. }
  unfold loc_columns. rewrite decide_True by done. eexists. split; [done|].
  split; [|done]. unfold columns at 1. cbn [cols].
  by apply loc_columns_labels.
Qed.

Lemma foldl_intersection_subseteq `{Countable A} (s : gset A) ss s' :
  s' ∈ s :: ss → foldl (∩) s ss ⊆ s'.
Proof.
  intros Hs' x Hx. apply elem_of_foldl_intersection in Hx as [Hx Hall].
  apply elem_of_cons in Hs' as [->|?]; auto.
Qed.

Section Merge_success.
Variable set_iter : SetIter.
Hypothesis set_iter_valid : SetIter_valid set_iter.

Lemma common_cols_subseteq (dfs2 : list (Frame (string * Z))) common f :
  set_intersection ((λ df, list_to_set (C:=gset Key) (columns df)) <$> dfs2)
    = Ok common →
  f ∈ dfs2 → common ⊆ list_to_set (columns f).
Proof.
  intros Hs Hf x Hx. apply (set_intersection_spec _ _ x Hs); [done|].
  by apply (list_elem_of_fmap_2 (λ df, list_to_set (C:=gset Key) (columns df))).
Qed.

Lemma merge_common_is_Ok dfs2 :
  dfs2 ≠ [] → Forall (λ f, NoDup (columns f)) dfs2 →
  is_Ok (merge_common set_iter dfs2).
Proof.
  intros Hne Hnd. unfold merge_common.
  destruct (set_intersection _) as [common|e] eqn:Hs; [|by destruct dfs2].
  cbn [mbind Result_bind].
  pose proof (λ f, common_cols_subseteq dfs2 common f Hs) as Hsub.
  destruct (traverse (λ df, loc_columns df (iterate set_iter common)) dfs2)
    as [l1|e] eqn:H1.
  2:{ apply traverse_Raise in H1 as (f & Hf & Hr). rewrite Forall_forall in Hnd.
      destruct (loc_columns_subset set_iter f common set_iter_valid (Hnd f Hf)
                  (Hsub f Hf)) as (g & Hg & _). congruence. }
  cbn [mbind Result_bind].
  pose proof (proj1 (traverse_Ok _ _ _) H1) as H12.
  destruct (traverse _ (imap pair l1)) as [l2|e] eqn:H2.
  2:{ apply traverse_Raise in H2 as ([i g] & Hig & Hr). exfalso.
      apply list_elem_of_lookup in Hig as [j Hj].
      rewrite list_lookup_imap in Hj.
      destruct (l1 !! j) as [g'|] eqn:Hg'; [|done]. cbn in Hj. simplify_eq.
      destruct (Forall2_lookup_r _ _ _ _ _ H12 Hg') as (f & Hf & Hfg).
      apply list_elem_of_lookup_2 in Hf. rewrite Forall_forall in Hnd.
      destruct (loc_columns_subset set_iter f common set_iter_valid (Hnd f Hf)
                  (Hsub f Hf)) as (g' & Hg & Hcols & _).
      assert (g' = g) as -> by congruence.
      unfold set_columns in Hr. cbn [fst snd] in Hr.
      rewrite decide_True in Hr; [done|].
      rewrite length_fmap, <- Hcols. unfold columns. by rewrite length_fmap. }
  cbn [mbind Result_bind].
  pose proof (proj1 (traverse_Ok _ _ _) H2) as H22.
  apply Forall2_length in H12, H22. rewrite length_imap in H22.
  destruct dfs2 as [|f0 fs]; [done|].
  destruct l2 as [|g gs]; [cbn in *; lia|]. by eexists.
Qed.

Lemma merge_noncommon_is_Ok dfs2 :
  dfs2 ≠ [] → Forall (λ f, NoDup (columns f)) dfs2 →
  is_Ok (merge_noncommon set_iter dfs2).
Proof.
  intros Hne Hnd. unfold merge_noncommon.
  destruct (set_intersection _) as [common|e] eqn:Hs; [|by destruct dfs2].
  cbn [mbind Result_bind].
  destruct (traverse _ _) as [l1|e] eqn:H1.
  2:{ apply traverse_Raise in H1 as ([f nc] & Hf & Hr). exfalso.
      apply list_elem_of_lookup in Hf as [j Hj].
      apply lookup_zip_with_Some in Hj as (f' & nc' & [= <- <-] & Hf & Hnc).
      rewrite !list_lookup_fmap, Hf in Hnc. cbn in Hnc. simplify_eq.
      apply list_elem_of_lookup_2 in Hf. rewrite Forall_forall in Hnd.
      destruct (loc_columns_subset set_iter f (list_to_set (columns f) ∖ common)
                  set_iter_valid (Hnd f Hf)) as (g & Hg & _);
        [apply subseteq_difference_l; done|].
      cbn [fst snd] in Hr. congruence. }
  cbn [mbind Result_bind].
  apply traverse_Ok, Forall2_length in H1.
  rewrite length_zip_with, !length_fmap in H1.
  destruct dfs2 as [|f0 fs]; [done|].
  destruct l1 as [|g gs]; [cbn in *; lia|]. by eexists.
Qed.
(** The columns of the run-specific table: every column of a run that is
    not common to all runs, whether or not another run has it too. *)
Lemma merge_noncommon_columns dfs2 common g c :
  set_intersection ((λ df, list_to_set (C:=gset Key) (columns df)) <$> dfs2)
    = Ok common →
  merge_noncommon set_iter dfs2 = Ok g →
  c ∈ columns g ↔ ∃ f, f ∈ dfs2 ∧ c ∈ columns f ∧ c ∉ common.
Proof.
  intros Hs. unfold merge_noncommon. rewrite Hs. cbn [mbind Result_bind].
  destruct (traverse _ _) as [l1|e] eqn:H1; [|done]. cbn [mbind Result_bind].
  intros (_ & Hcols & _)%concat_columns_Ok.
  apply traverse_Ok in H1. unfold columns at 1. rewrite Hcols. split.
  - intros (c0 & -> & Hc0)%list_elem_of_fmap.
    apply list_elem_of_bind in Hc0 as (g1 & Hc0 & Hg1).
    apply list_elem_of_fmap in Hc0 as (c1 & -> & Hc1).
    apply list_elem_of_lookup in Hg1 as [j Hj].
    destruct (Forall2_lookup_r _ _ _ _ _ H1 Hj) as ([f nc] & Hdn & Hloc).
    apply lookup_zip_with_Some in Hdn as (f' & nc' & [= <- <-] & Hf & Hnc).
    rewrite !list_lookup_fmap, Hf in Hnc. cbn in Hnc. simplify_eq.
    apply loc_columns_Ok in Hloc as (_ & _ & Hg1 & _). cbn [fst snd] in Hg1.
    rewrite Hg1 in Hc1. apply list_elem_of_bind in Hc1 as (l & Hc1 & Hl).
    apply list_elem_of_filter in Hc1 as [<- Hc1].
    apply (SetIter_valid_elem_of set_iter _ _ set_iter_valid) in Hl.
    apply elem_of_difference in Hl as [Hl Hn].
    exists f. split; [by eapply list_elem_of_lookup_2|]. split; [|done].
    cbn [restrict_rows fst]. by apply (list_elem_of_fmap_2 fst).
  - intros (f & Hf & Hc & Hn).
    apply list_elem_of_lookup in Hf as [j Hj].
    assert (zip dfs2 ((λ columns : gset Key, columns ∖ common)
                        <$> ((λ df, list_to_set (columns df)) <$> dfs2)) !! j
            = Some (f, list_to_set (columns f) ∖ common)) as Hdn.
    { apply lookup_zip_with_Some. exists f, (list_to_set (columns f) ∖ common).
      split; [done|]. split; [done|]. by rewrite !list_lookup_fmap, Hj. }
    destruct (Forall2_lookup_l _ _ _ _ _ H1 Hdn) as (g1 & Hg1 & Hloc).
    apply loc_columns_Ok in Hloc as (_ & _ & Hcg1 & _). cbn [fst snd] in Hcg1.
    apply list_elem_of_fmap in Hc as (c1 & -> & Hc1).
    apply (list_elem_of_fmap_2 fst _ (restrict_rows (index g) c1)).
    apply list_elem_of_bind. exists g1. split; [|by eapply list_elem_of_lookup_2].
    apply list_elem_of_fmap_2. rewrite Hcg1.
    apply list_elem_of_bind. exists c1.1. split.
    + by apply list_elem_of_filter.
    + apply (SetIter_valid_elem_of set_iter _ _ set_iter_valid).
      apply elem_of_difference. split; [|done].
      apply elem_of_list_to_set. by apply (list_elem_of_fmap_2 fst).
Qed.
End Merge_success.

Lemma columns_replace (tmp : list (string * Z)) (df : Frame (string * Z)) c t :
  c ∈ columns df → t ∈ thread_labels (index df) →
  c ++ [LInt t] ∈ columns (replace_fcpath_with_cnodeID tmp df).
Proof.
  intros (c0 & -> & Hc0)%list_elem_of_fmap Ht.
  unfold columns.
  cbn [replace_fcpath_with_cnodeID join_set_index unstack_thread cols index].
  rewrite <- list_fmap_compose.
  change (c0.1 ++ [LInt t])
    with ((fst ∘ rekey_column
             (filter (λ pi : string * Z, pi.1 ∈ set_map (D:=gset string) fst (index df)) tmp))
            (unstack_column c0 t)).
  apply list_elem_of_fmap_2.
  apply list_elem_of_bind. exists c0. split; [|done]. by apply list_elem_of_fmap_2.
Qed.

Section Process_multi_success.
Variable get_call_tree : string → CallTreeNode.
Variable calltree_to_df2 : CallTreeNode → list TreeRow.
Variable get_dump : string → Dump.
Variable get_inclusive_convertible_metrics : string → list string.
Variable set_iter : SetIter.

Local Abbreviation cubex :=
  (process_cubex get_call_tree calltree_to_df2 get_dump
                 get_inclusive_convertible_metrics).
Local Abbreviation multi :=
  (process_multi get_call_tree calltree_to_df2 get_dump
                 get_inclusive_convertible_metrics set_iter).

Lemma adjust_df_is_Ok d :
  NoDup (row_key <$> df_rows d) → is_Ok (adjust_df d).
Proof. intros Hnd. unfold adjust_df. rewrite decide_True by done. by eexists. Qed.

Lemma adjusted_runs profile_files :
  well_formed_runs cubex profile_files →
  ∃ dfs2, traverse adjust_df ((λ pf, df (cubex pf)) <$> profile_files) = Ok dfs2
          ∧ Forall2 (λ pf f, adjust_df (df (cubex pf)) = Ok f) profile_files dfs2
          ∧ Forall (λ f, NoDup (columns f)) dfs2.
Proof.
  intros Hwf.
  destruct (traverse_is_Ok adjust_df ((λ pf, df (cubex pf)) <$> profile_files))
    as [dfs2 H2].
  { apply Forall_fmap, Forall_forall. intros pf Hpf. apply adjust_df_is_Ok.
    by apply Hwf. }
  exists dfs2. split; [done|].
  apply traverse_Ok, Forall2_fmap_l in H2. split; [done|].
  apply Forall_forall. intros f Hf. apply list_elem_of_lookup in Hf as [j Hj].
  destruct (Forall2_lookup_r _ _ _ _ _ H2 Hj) as (pf & Hpf & Hadj).
  apply adjust_df_Ok in Hadj as (_ & _ & ->).
  apply NoDup_fmap_2; [by intros m1 m2 [= ->]|].
  by apply Hwf, (list_elem_of_lookup_2 _ j).
Qed.
(** [process_multi] raises no [AssertionError]: the assertion of
    [check_column_sets] is not on its path. *)
Lemma process_multi_Raise profile_files e :
  multi profile_files = Raise e → e ≠ AssertionError.
Proof.
  unfold process_multi. destruct profile_files as [|first_file rest].
  { by intros [= <-]. }
  destruct (traverse adjust_df _) as [dfs2|e'] eqn:H2; cbn [mbind Result_bind].
  2:{ intros [= <-]. apply traverse_Raise in H2 as (d & _ & Hd).
      by apply adjust_df_Raise in Hd as ->. }
  destruct (merge_common set_iter dfs2) as [dfc0|e'] eqn:Hc; cbn [mbind Result_bind].
  2:{ intros [= <-]. by apply merge_common_Raise in Hc. }
  destruct (merge_noncommon set_iter dfs2) as [dfn0|e'] eqn:Hn; cbn [mbind Result_bind].
  2:{ intros [= <-]. by apply merge_noncommon_Raise in Hn. }
  done.
Qed.

(** C2 (as the code has it).  [process_multi] does not check that the
    metric sets of the runs are disjoint outside the common metrics; its
    docstring assumes it.  On runs with well-formed tables it returns
    normally, and a metric that some run has and some other run lacks is a
    column of the run-specific table under every thread that survives the
    join, whether or not a third run has the metric too. *)
Theorem process_multi_no_partition_check profile_files :
  SetIter_valid set_iter →
  profile_files ≠ [] →
  well_formed_runs cubex profile_files →
  ∃ call_tree df_common df_noncommon,
    multi profile_files = Ok (call_tree, df_common, df_noncommon)
    ∧ ∀ pf pf' m p t,
        pf ∈ profile_files → m ∈ df_metrics (df (cubex pf)) →
        pf' ∈ profile_files → m ∉ df_metrics (df (cubex pf')) →
        (∀ pf'', pf'' ∈ profile_files → (p, t) ∈ run_keys (df (cubex pf''))) →
        [LStr m; LInt t] ∈ columns df_noncommon.
Proof.
  intros Hit Hne Hwf.
  destruct (adjusted_runs _ Hwf) as (dfs2 & H2 & HF2 & Hnd).
  assert (dfs2 ≠ []) as Hne2.
  { apply Forall2_length in HF2. destruct profile_files, dfs2; cbn in *; done. }
  destruct (merge_common_is_Ok set_iter Hit dfs2 Hne2 Hnd) as [dfc0 Hc].
  destruct (merge_noncommon_is_Ok set_iter Hit dfs2 Hne2 Hnd) as [dfn0 Hn].
  destruct profile_files as [|first_file rest]; [done|].
  pose proof (process_multi_of_merged get_call_tree calltree_to_df2
                get_dump get_inclusive_convertible_metrics set_iter
                first_file rest dfs2 dfc0 dfn0 H2 Hc Hn) as Hrun.
  eexists _, _, _. split; [exact Hrun|].
  intros pf pf' m p t Hpf Hm Hpf' Hm' Hpt.
  destruct (merged_indexes get_call_tree calltree_to_df2 get_dump
              get_inclusive_convertible_metrics set_iter _ _ _ _ H2 Hc Hn)
    as [Hkeys Hsame].
  destruct (set_intersection ((λ df, list_to_set (C:=gset Key) (columns df)) <$> dfs2))
    as [common|e] eqn:Hs; [|by destruct dfs2].
  apply list_elem_of_lookup in Hpf as [j Hj], Hpf' as [j' Hj'].
  destruct (Forall2_lookup_l _ _ _ _ _ HF2 Hj) as (f & Hf & Hadj).
  destruct (Forall2_lookup_l _ _ _ _ _ HF2 Hj') as (f' & Hf' & Hadj').
  apply adjust_df_Ok in Hadj as (_ & _ & Hcf), Hadj' as (_ & _ & Hcf').
  apply list_elem_of_lookup_2 in Hf, Hf'.
  apply (columns_replace _ dfn0 [LStr m] t).
  - apply (merge_noncommon_columns set_iter Hit dfs2 common dfn0 _ Hs Hn).
    exists f. split; [done|]. split.
    + rewrite Hcf. by apply (list_elem_of_fmap_2 (λ m, [LStr m])).
    + intros Hin. apply (common_cols_subseteq dfs2 common f' Hs Hf') in Hin.
      apply elem_of_list_to_set in Hin. rewrite Hcf' in Hin.
      apply list_elem_of_fmap in Hin as (m' & [= <-] & Hin). done.
  - apply elem_of_thread_labels. exists p. rewrite Hsame. by apply Hkeys.
Qed.
End Process_multi_success.

(** The metric sets of the three sample runs break the partition
    invariant ([check_column_sets] rejects them: c is in runs 0 and 1 and
    not in run 2), and [process_multi] merges the runs all the same: the
    run-specific table has two columns named c. *)
Lemma process_multi_accepts_clash :
  check_column_sets ((λ f, list_to_set (columns f)) <$> sample_dfs2)
    = Raise AssertionError
  ∧ (∀ set_iter, sample_process_multi set_iter sample_files ≠ Raise AssertionError)
  ∧ sample_process_multi iter_elements sample_files
    = Ok (sample_merged.1.1, sample_merged.1.2, sample_merged.2)
  ∧ columns sample_merged.2 = [[LStr "c"; LInt 0]; [LStr "c"; LInt 0]].
Proof.
  split; [by vm_compute|]. split.
  - intros set_iter Hr. by apply process_multi_Raise in Hr.
  - split; by vm_compute.
Qed.

(** The three sample runs are well formed and are merged. *)
Lemma process_multi_no_partition_check_witness :
  SetIter_valid iter_elements
  ∧ sample_files ≠ []
  ∧ well_formed_runs
      (process_cubex (λ _, sample_tree) (tree_rows "") sample_dump (λ _, []))
      sample_files
  ∧ is_Ok (process_multi (λ _, sample_tree) (tree_rows "") sample_dump (λ _, [])
             iter_elements sample_files).
Proof.
  assert (sample_files ≠ []) as Hne by done.
  assert (well_formed_runs
            (process_cubex (λ _, sample_tree) (tree_rows "") sample_dump (λ _, []))
            sample_files) as Hwf.
  { intros pf Hpf. unfold sample_files in Hpf.
    repeat (apply elem_of_cons in Hpf as [->|Hpf]);
      [split; apply (bool_decide_unpack _); by vm_compute..|].
    by apply elem_of_nil in Hpf. }
  split; [exact iter_elements_valid|]. split; [exact Hne|]. split; [exact Hwf|].
  destruct (process_multi_no_partition_check (λ _, sample_tree) (tree_rows "")
              sample_dump (λ _, []) iter_elements sample_files
              iter_elements_valid Hne Hwf) as (t & c & n & Hrun & _).
  by exists (t, c, n).
Defined.

(** ** The order of set iteration *)

Lemma result_rel_bind {A B A' B'} (R : A → B → Prop) (S : A' → B' → Prop)
    (r1 : Result A) (r2 : Result B) (f : A → Result A') (g : B → Result B') :
  result_rel R r1 r2 →
  (∀ a b, R a b → result_rel S (f a) (g b)) →
  result_rel S (r1 ≫= f) (r2 ≫= g).
Proof. destruct r1, r2; cbn; auto; done. Qed.

Lemma traverse_rel {A B A' B'} (R : A → B → Prop) (S : A' → B' → Prop)
    (f : A → Result A') (g : B → Result B') l l' :
  Forall2 R l l' →
  (∀ x x', R x x' → result_rel S (f x) (g x')) →
  result_rel (Forall2 S) (traverse f l) (traverse g l').
Proof.
  intros Hl Hfg. induction Hl as [|x x' l l' Hx _ IH]; cbn [traverse].
  { constructor. }
  apply (result_rel_bind S); [by apply Hfg|]. intros y y' Hy.
  apply (result_rel_bind (Forall2 S)); [done|]. intros ys ys' Hys.
  by constructor.
Qed.

Lemma Forall2_bind_Permutation {A B C} (F : A → list C) (G : B → list C) l l' :
  Forall2 (λ x y, F x ≡ₚ G y) l l' → l ≫= F ≡ₚ l' ≫= G.
Proof.
  induction 1 as [|x y l l' Hxy _ IH]; [done|].
  rewrite !bind_cons. by apply Permutation_app.
Qed.

Lemma Forall2_imap_pair {A B} (R : A → B → Prop) l l' :
  Forall2 R l l' →
  Forall2 (λ x y, x.1 = y.1 ∧ R x.2 y.2) (imap pair l) (imap pair l').
Proof.
  intros Hl. apply Forall2_same_length_lookup_2.
  { rewrite !length_imap. by eapply Forall2_length. }
  intros i [j x] [j' y]. rewrite !list_lookup_imap.
  destruct (l !! i) as [x0|] eqn:Hx; [|done].
  destruct (l' !! i) as [y0|] eqn:Hy; [|done].
  intros [= <- <-] [= <- <-]. split; [done|].
  by eapply Forall2_lookup_lr.
Qed.

Lemma bind_length_ge {A B} (F : A → list B) L :
  Forall (λ l, F l ≠ []) L → (length L ≤ length (L ≫= F))%nat.
Proof.
  induction 1 as [|l L Hl _ IH]; cbn; [lia|].
  rewrite length_app. destruct (F l); [done|]. cbn. lia.
Qed.

(** When picking a nonempty batch for every label yields as many items
    as there are labels, every batch has one item. *)
Lemma bind_length_singletons {A B} (F : A → list B) L :
  Forall (λ l, F l ≠ []) L → length (L ≫= F) = length L →
  Forall (λ l, ∃ c, F l = [c]) L.
Proof.
  induction 1 as [|l L Hl HL IH]; [constructor|].
  rewrite bind_cons, length_app. cbn [length]. intros Hlen.
  pose proof (bind_length_ge F L HL).
  destruct (F l) as [|c [|c' cs]] eqn:HF; [done| |cbn in Hlen; lia].
  constructor; [by exists c|]. apply IH. cbn in Hlen. lia.
Qed.

Lemma zip_singletons {A B C D} (tag : A → D) (val : B → C) (F : A → list B) L :
  Forall (λ l, ∃ c, F l = [c]) L →
  zip (tag <$> L) (val <$> (L ≫= F)) = L ≫= (λ l, (λ c, (tag l, val c)) <$> F l).
Proof.
  induction 1 as [|l L [c Hc] _ IH]; [done|].
  rewrite fmap_cons, !bind_cons, Hc. cbn. by rewrite IH.
Qed.

Section Set_order.
Variables it1 it2 : SetIter.
Hypothesis it1_valid : SetIter_valid it1.
Hypothesis it2_valid : SetIter_valid it2.

Lemma loc_columns_perm `{Countable K} (f : Frame K) (L1 L2 : list Key) :
  L1 ≡ₚ L2 →
  result_rel (λ g1 g2, loc_columns f L1 = Ok g1 ∧ loc_columns f L2 = Ok g2)
             (loc_columns f L1) (loc_columns f L2).
Proof.
  intros HL.
  destruct (loc_columns f L1) as [g1|e1] eqn:H1,
           (loc_columns f L2) as [g2|e2] eqn:H2; cbn.
  - done.
  - apply loc_columns_Ok in H1 as (_ & _ & _ & Hall). rewrite HL in Hall.
    unfold loc_columns in H2. by rewrite decide_True in H2.
  - apply loc_columns_Ok in H2 as (_ & _ & _ & Hall). rewrite <- HL in Hall.
    unfold loc_columns in H1. by rewrite decide_True in H1.
  - apply loc_columns_Raise in H1, H2. congruence.
Qed.

Lemma loc_columns_frame_perm `{Countable K} (f g1 g2 : Frame K) (L1 L2 : list Key) :
  L1 ≡ₚ L2 → loc_columns f L1 = Ok g1 → loc_columns f L2 = Ok g2 →
  frame_perm g1 g2.
Proof.
  intros HL (Hi1 & Hn1 & Hc1 & _)%loc_columns_Ok (Hi2 & Hn2 & Hc2 & _)%loc_columns_Ok.
  split; [congruence|]. split; [congruence|]. by rewrite Hc1, Hc2, HL.
Qed.

Lemma set_columns_perm `{Countable K} nms (tag : Key → Key) (f g1 g2 : Frame K)
    (L1 L2 : list Key) :
  L1 ≡ₚ L2 → loc_columns f L1 = Ok g1 → loc_columns f L2 = Ok g2 →
  result_rel frame_perm (set_columns nms (tag <$> L1) g1)
                        (set_columns nms (tag <$> L2) g2).
Proof.
  intros HL H1 H2. pose proof (loc_columns_frame_perm f g1 g2 L1 L2 HL H1 H2)
    as (Hidx & _ & Hcols).
  apply loc_columns_Ok in H1 as (_ & _ & Hc1 & Hall1).
  apply loc_columns_Ok in H2 as (_ & _ & Hc2 & Hall2).
  pose proof (Permutation_length HL) as HlenL.
  pose proof (Permutation_length Hcols) as Hlenc.
  unfold set_columns. rewrite !length_fmap.
  destruct (decide (length L1 = length (cols g1))) as [Hl1|Hl1].
  2:{ rewrite decide_False by lia. done. }
  rewrite decide_True by lia. cbn.
  split; [done|]. split; [done|]. cbn [cols].
  set (F := λ l : Key, filter (λ c : Key * gmap K Z, c.1 = l) (cols f)) in *.
  assert (Forall (λ l, F l ≠ []) L1) as Hne.
  { eapply Forall_impl; [exact Hall1|]. intros l (c & -> & Hc)%list_elem_of_fmap.
    intros Hnil. eapply (filter_nil_not_elem_of _ _ c); [exact Hnil|done|done]. }
  assert (Forall (λ l, ∃ c, F l = [c]) L1) as Hs1.
  { apply bind_length_singletons; [done|]. rewrite <- Hc1. lia. }
  assert (Forall (λ l, ∃ c, F l = [c]) L2) as Hs2 by (by rewrite <- HL).
  rewrite Hc1, Hc2, !zip_singletons by done. by rewrite HL.
Qed.

Lemma frame_perm_indexes `{Countable K} (fs gs : list (Frame K)) :
  Forall2 frame_perm fs gs → index <$> fs = index <$> gs.
Proof.
  induction 1 as [|f g fs gs (Hi & _) _ IH]; [done|]. cbn. by rewrite Hi, IH.
Qed.

Lemma concat_columns_perm `{Countable K} (fs gs : list (Frame K)) :
  Forall2 frame_perm fs gs →
  result_rel frame_perm (concat_columns fs) (concat_columns gs).
Proof.
  intros Hfg.
  destruct Hfg as [|f g fs gs (Hi & Hn & Hc) Hfg]; cbn; [done|].
  pose proof (frame_perm_indexes fs gs Hfg) as Hidx.
  split; cbn [index names cols]; [by rewrite Hi, Hidx|]. split; [done|].
  rewrite Hi, Hidx. apply Permutation_app; [by rewrite Hc|].
  apply Forall2_bind_Permutation.
  eapply Forall2_impl; [exact Hfg|]. intros f' g' (_ & _ & Hc'). cbn.
  by rewrite Hc'.
Qed.

Lemma merge_common_perm dfs2 :
  result_rel frame_perm (merge_common it1 dfs2) (merge_common it2 dfs2).
Proof.
  unfold merge_common.
  destruct (set_intersection _) as [common|e]; cbn [mbind Result_bind]; [|done].
  pose proof (SetIter_valid_Permutation it1 it2 common it1_valid it2_valid) as HL.
  eapply result_rel_bind.
  { apply (traverse_rel eq
             (λ g1 g2, ∃ f, loc_columns f (iterate it1 common) = Ok g1
                            ∧ loc_columns f (iterate it2 common) = Ok g2)).
    - by apply Forall_Forall2_diag, Forall_true.
    - intros f ? <-. pose proof (loc_columns_perm f _ _ HL) as Hr.
      destruct (loc_columns f (iterate it1 common)) eqn:H1,
               (loc_columns f (iterate it2 common)) eqn:H2; cbn in *; try done.
      by exists f. }
  intros l1 l1' Hl1. eapply result_rel_bind.
  { apply (traverse_rel _ frame_perm _ _ _ _ (Forall2_imap_pair _ _ _ Hl1)).
    intros [i g1] [i' g2] [Hi (f & H1 & H2)]. cbn in Hi. subst i'. cbn [fst snd].
    by apply (set_columns_perm _ (λ col, LInt (Z.of_nat i) :: col) f). }
  intros l2 l2' Hl2. by apply concat_columns_perm.
Qed.

Lemma merge_noncommon_perm dfs2 :
  result_rel frame_perm (merge_noncommon it1 dfs2) (merge_noncommon it2 dfs2).
Proof.
  unfold merge_noncommon.
  destruct (set_intersection _) as [common|e]; cbn [mbind Result_bind]; [|done].
  eapply result_rel_bind.
  { apply (traverse_rel eq frame_perm).
    - by apply Forall_Forall2_diag, Forall_true.
    - intros [f nc] ? <-. cbn [fst snd].
      pose proof (SetIter_valid_Permutation it1 it2 nc it1_valid it2_valid) as HL.
      pose proof (loc_columns_perm f _ _ HL) as Hr.
      destruct (loc_columns f (iterate it1 nc)) eqn:H1,
               (loc_columns f (iterate it2 nc)) eqn:H2; cbn in *; try done.
      by apply (loc_columns_frame_perm f _ _ _ _ HL). }
  intros l1 l1' Hl1. by apply concat_columns_perm.
Qed.

Lemma replace_perm (tmp : list (string * Z)) (f g : Frame (string * Z)) :
  frame_perm f g →
  frame_perm (replace_fcpath_with_cnodeID tmp f) (replace_fcpath_with_cnodeID tmp g).
Proof.
  intros (Hi & Hn & Hc). unfold frame_perm.
  cbn [replace_fcpath_with_cnodeID join_set_index unstack_thread index names cols].
  rewrite Hi, Hn. split; [done|]. split; [done|]. by rewrite Hc.
Qed.

Lemma select_metrics_perm `{Countable K} (df : Frame K) (selected_metrics : list Label) :
  result_rel frame_perm (select_metrics it1 df selected_metrics)
                        (select_metrics it2 df selected_metrics).
Proof.
  unfold select_metrics.
  destruct (list_index _ _) as [j|e]; cbn [mbind Result_bind]; [|done]. cbn.
  split; [done|]. split; [done|]. cbn [loc_level cols].
  by rewrite (SetIter_valid_Permutation it1 it2 _ it1_valid it2_valid).
Qed.

(** C10 (as the code has it).  The pipeline has no state of its own, but
    the order of the columns of its results is the iteration order of
    Python sets of metric names.  Under two iteration orders
    [process_multi] raises the same exception or returns the same call
    tree and two tables with the same rows and the same labelled columns,
    possibly in another order; and so does [select_metrics]. *)
Theorem pipeline_same_up_to_column_order `{Countable K}
    (get_call_tree : string → CallTreeNode)
    (calltree_to_df2 : CallTreeNode → list TreeRow)
    (get_dump : string → Dump)
    (get_inclusive_convertible_metrics : string → list string)
    (profile_files : list string) (df : Frame K) (selected_metrics : list Label) :
  result_rel merged_perm
    (process_multi get_call_tree calltree_to_df2 get_dump
       get_inclusive_convertible_metrics it1 profile_files)
    (process_multi get_call_tree calltree_to_df2 get_dump
       get_inclusive_convertible_metrics it2 profile_files)
  ∧ result_rel frame_perm (select_metrics it1 df selected_metrics)
                          (select_metrics it2 df selected_metrics).
Proof.
  split; [|apply select_metrics_perm].
  unfold process_multi. destruct profile_files as [|first_file rest]; [done|].
  destruct (traverse adjust_df _) as [dfs2|e]; cbn [mbind Result_bind]; [|done].
  eapply result_rel_bind; [apply merge_common_perm|]. intros dfc dfc' Hc.
  eapply result_rel_bind; [apply merge_noncommon_perm|]. intros dfn dfn' Hn.
  cbn. split; [done|]. split; by apply replace_perm.
Qed.
End Set_order.

(** C10 (as stated) fails: merging runs 0 and 1 under two iteration
    orders of the set {a, c} gives the columns of the common table in
    two different orders. *)
Lemma process_multi_column_order_differs :
  SetIter_valid iter_elements ∧ SetIter_valid iter_reverse
  ∧ common_columns (sample_process_multi iter_elements ["run0"; "run1"]%string)
    = Ok [[LInt 0; LStr "c"; LInt 0]; [LInt 0; LStr "a"; LInt 0];
          [LInt 1; LStr "c"; LInt 0]; [LInt 1; LStr "a"; LInt 0]]
  ∧ common_columns (sample_process_multi iter_reverse ["run0"; "run1"]%string)
    = Ok [[LInt 0; LStr "a"; LInt 0]; [LInt 0; LStr "c"; LInt 0];
          [LInt 1; LStr "a"; LInt 0]; [LInt 1; LStr "c"; LInt 0]]
  ∧ sample_process_multi iter_elements ["run0"; "run1"]%string
    ≠ sample_process_multi iter_reverse ["run0"; "run1"]%string.
Proof.
  assert (common_columns (sample_process_multi iter_elements ["run0"; "run1"]%string)
          = Ok [[LInt 0; LStr "c"; LInt 0]; [LInt 0; LStr "a"; LInt 0];
                [LInt 1; LStr "c"; LInt 0]; [LInt 1; LStr "a"; LInt 0]]) as H1
    by (vm_compute; reflexivity).
  assert (common_columns (sample_process_multi iter_reverse ["run0"; "run1"]%string)
          = Ok [[LInt 0; LStr "a"; LInt 0]; [LInt 0; LStr "c"; LInt 0];
                [LInt 1; LStr "a"; LInt 0]; [LInt 1; LStr "c"; LInt 0]]) as H2
    by (vm_compute; reflexivity).
  split; [exact iter_elements_valid|]. split; [exact iter_reverse_valid|].
  split; [exact H1|]. split; [exact H2|].
  intros Heq. rewrite Heq, H2 in H1. discriminate H1.
Qed.

(** Under the two sample orders the merge of runs 0 and 1 gives the same
    tables up to the order of the columns. *)
Lemma pipeline_same_up_to_column_order_witness :
  SetIter_valid iter_elements ∧ SetIter_valid iter_reverse
  ∧ result_rel merged_perm
      (process_multi (λ _, sample_tree) (tree_rows "") sample_dump (λ _, [])
         iter_elements ["run0"; "run1"]%string)
      (process_multi (λ _, sample_tree) (tree_rows "") sample_dump (λ _, [])
         iter_reverse ["run0"; "run1"]%string).
Proof.
  split; [exact iter_elements_valid|]. split; [exact iter_reverse_valid|].
  exact (proj1 (pipeline_same_up_to_column_order iter_elements iter_reverse
                  iter_elements_valid iter_reverse_valid
                  (λ _, sample_tree) (tree_rows "") sample_dump (λ _, [])
                  ["run0"; "run1"]%string sample_time_frame [])).
Defined.

(** * Further properties *)

(** ** More on the metric-set check *)

Lemma Forall_combinations2 `{Countable A} (sets : list (gset A)) :
  Forall (λ p, p.1 ## p.2) (combinations2 sets) ↔ pairwise_disjoint sets.
Proof.
  induction sets as [|s sets IH]; cbn [combinations2 pairwise_disjoint].
  - split; [done|constructor].
  - by rewrite Forall_app, Forall_fmap, IH.
Qed.

Lemma check_column_sets_pairwise (column_sets : list (gset Key)) common :
  set_intersection column_sets = Ok common →
  check_column_sets column_sets = Ok tt
  ↔ pairwise_disjoint ((λ s, s ∖ common) <$> column_sets).
Proof.
  intros Hs. unfold check_column_sets. rewrite Hs. cbn [mbind Result_bind].
  by rewrite assert_disjoint_Ok, Forall_combinations2.
Qed.

Lemma check_column_sets_not_Ok (column_sets : list (gset Key)) common :
  set_intersection column_sets = Ok common →
  check_column_sets column_sets ≠ Ok tt →
  check_column_sets column_sets = Raise AssertionError.
Proof.
  intros Hs Hne. unfold check_column_sets in *. rewrite Hs in *.
  cbn [mbind Result_bind] in *. by destruct (assert_disjoint_outcome
    (combinations2 ((λ column_set, column_set ∖ common) <$> column_sets))).
Qed.

Lemma pairwise_disjoint_Permutation `{Countable A} (l1 l2 : list (gset A)) :
  l1 ≡ₚ l2 → pairwise_disjoint l1 → pairwise_disjoint l2.
Proof.
  induction 1 as [|s l1 l2 Hl IH|s1 s2 l|l1 l2 l3 _ IH1 _ IH2];
    cbn [pairwise_disjoint]; [done| | |by auto].
  - intros [Hs Hl1]. split; [by rewrite <- Hl|by apply IH].
  - rewrite !Forall_cons. intros [[H12 H2] [H1 Hl]]. done.
Qed.

(** X1.  [check_column_sets] needs at least one set: called without any, it
    stops with the [TypeError] of [set.intersection]; one set, or any two
    sets, always pass, since what two sets share is common to all. *)
Theorem check_column_sets_few (s1 s2 : gset Key) :
  check_column_sets [] = Raise TypeError
  ∧ check_column_sets [s1] = Ok tt
  ∧ check_column_sets [s1; s2] = Ok tt.
Proof.
  split; [done|]. split; [done|].
  apply (check_column_sets_pairwise [s1; s2] (s1 ∩ s2)); [done|].
  cbn. split; [|done]. repeat constructor.
  apply elem_of_disjoint. intros x.
  rewrite !elem_of_difference, elem_of_intersection. tauto.
Qed.

(** X2.  The order in which the sets of the runs are given does not matter
    to [check_column_sets]: a rearranged list has the same outcome. *)
Theorem check_column_sets_Permutation (sets1 sets2 : list (gset Key)) :
  sets1 ≡ₚ sets2 → check_column_sets sets1 = check_column_sets sets2.
Proof.
  intros Hp.
  destruct sets1 as [|s1 ss1].
  { apply Permutation_nil_l in Hp. by subst. }
  destruct sets2 as [|s2 ss2].
  { by apply Permutation_nil_r in Hp. }
  set (l1 := s1 :: ss1) in *. set (l2 := s2 :: ss2) in *.
  assert (set_intersection l1 = Ok (foldl (∩) s1 ss1)) as H1 by done.
  assert (set_intersection l2 = Ok (foldl (∩) s2 ss2)) as H2 by done.
  assert (foldl (∩) s1 ss1 = foldl (∩) s2 ss2) as Hcommon.
  { apply set_eq. intros x.
    rewrite (set_intersection_spec l1 _ x H1), (set_intersection_spec l2 _ x H2).
    by setoid_rewrite Hp. }
  rewrite Hcommon in H1. set (common := foldl (∩) s2 ss2) in *.
  assert (check_column_sets l1 = Ok tt ↔ check_column_sets l2 = Ok tt) as Hiff.
  { rewrite (check_column_sets_pairwise l1 common H1),
            (check_column_sets_pairwise l2 common H2).
    split; apply pairwise_disjoint_Permutation; by rewrite Hp. }
  destruct (check_column_sets l1) as [[]|e] eqn:E1.
  - symmetry. by apply Hiff.
  - pose proof (check_column_sets_not_Ok l1 common H1) as Hn.
    rewrite E1 in Hn. rewrite Hn by done.
    symmetry. apply (check_column_sets_not_Ok l2 common H2).
    intros Hok. by apply Hiff in Hok.
Qed.

Lemma check_column_sets_Permutation_witness :
  sample_sets_clash ≡ₚ reverse sample_sets_clash
  ∧ check_column_sets (reverse sample_sets_clash) = Raise AssertionError.
Proof.
  assert (sample_sets_clash ≡ₚ reverse sample_sets_clash) as Hp
    by (symmetry; apply reverse_Permutation).
  split; [exact Hp|].
  rewrite <- (check_column_sets_Permutation _ _ Hp). by vm_compute.
Defined.

Lemma pairwise_disjoint_sublist `{Countable A} (l1 l2 : list (gset A)) :
  l1 `sublist_of` l2 → pairwise_disjoint l2 → pairwise_disjoint l1.
Proof.
  induction 1 as [|s l1 l2 Hl IH|s l1 l2 Hl IH]; cbn [pairwise_disjoint]; [done| |].
  - intros [Hs Hl2]. split; [|by apply IH].
    rewrite Forall_forall in Hs |- *. intros s' Hs'. apply Hs.
    by eapply elem_of_sublist.
  - intros [_ Hl2]. by apply IH.
Qed.

Lemma pairwise_disjoint_subseteq `{Countable A} (l1 l2 : list (gset A)) :
  Forall2 (⊆) l1 l2 → pairwise_disjoint l2 → pairwise_disjoint l1.
Proof.
  induction 1 as [|s1 s2 l1 l2 Hs Hl IH]; cbn [pairwise_disjoint]; [done|].
  intros [Hd Hl2]. split; [|by apply IH].
  clear IH Hl2. induction Hl as [|t1 t2 l1 l2 Ht _ IH]; [constructor|].
  apply Forall_cons in Hd as [Hd1 Hd2]. constructor; [|by apply IH].
  apply elem_of_disjoint. intros x Hx1 Hx2.
  apply (proj1 (elem_of_disjoint _ _) Hd1 x); auto.
Qed.

(** X3.  Runs can be left out of a consistent collection: when
    [check_column_sets] accepts a list of sets, it accepts every list made
    of some of them, in the same order, provided one set is left. *)
Theorem check_column_sets_sublist (sets1 sets2 : list (gset Key)) :
  sets1 `sublist_of` sets2 → sets1 ≠ [] →
  check_column_sets sets2 = Ok tt → check_column_sets sets1 = Ok tt.
Proof.
  intros Hsub Hne Hok.
  destruct sets1 as [|s1 ss1]; [done|]. clear Hne.
  destruct sets2 as [|s2 ss2]; [done|].
  set (l1 := s1 :: ss1) in *. set (l2 := s2 :: ss2) in *.
  assert (set_intersection l1 = Ok (foldl (∩) s1 ss1)) as H1 by done.
  assert (set_intersection l2 = Ok (foldl (∩) s2 ss2)) as H2 by done.
  set (common1 := foldl (∩) s1 ss1) in *. set (common2 := foldl (∩) s2 ss2) in *.
  assert (common2 ⊆ common1) as Hcommon.
  { intros x Hx. apply (set_intersection_spec l1 _ x H1). intros s Hs.
    apply (set_intersection_spec l2 _ x H2); [done|]. by eapply elem_of_sublist. }
  apply (check_column_sets_pairwise l1 common1 H1).
  apply (check_column_sets_pairwise l2 common2 H2) in Hok.
  apply (pairwise_disjoint_subseteq _ ((λ s, s ∖ common2) <$> l1)).
  - apply Forall2_fmap, Forall_Forall2_diag, Forall_true. intros s x.
    rewrite !elem_of_difference. intros [? Hn]. split; [done|]. auto.
  - eapply pairwise_disjoint_sublist; [|exact Hok]. by apply fmap_sublist.
Qed.

Lemma check_column_sets_sublist_witness :
  [metric_set ["a"; "b"; "c"]; metric_set ["a"; "b"; "e"]] `sublist_of` sample_sets_ok
  ∧ [metric_set ["a"; "b"; "c"]; metric_set ["a"; "b"; "e"]] ≠ []
  ∧ check_column_sets sample_sets_ok = Ok tt
  ∧ check_column_sets [metric_set ["a"; "b"; "c"]; metric_set ["a"; "b"; "e"]] = Ok tt.
Proof.
  assert ([metric_set ["a"; "b"; "c"]; metric_set ["a"; "b"; "e"]]
            `sublist_of` sample_sets_ok) as Hsub.
  { unfold sample_sets_ok. apply sublist_skip, sublist_cons, sublist_skip.
    constructor. }
  assert (check_column_sets sample_sets_ok = Ok tt) as Hok by (by vm_compute).
  split; [exact Hsub|]. split; [done|]. split; [exact Hok|].
  by apply (check_column_sets_sublist _ _ Hsub).
Defined.

(** ** The check and the run-specific table *)

Lemma Forall2_bind_eq {A B C} (F : A → list C) (G : B → list C) l l' :
  Forall2 (λ x y, F x = G y) l l' → l ≫= F = l' ≫= G.
Proof.
  induction 1 as [|x y l l' Hxy _ IH]; [done|]. by rewrite !bind_cons, Hxy, IH.
Qed.

Lemma bind_zip_fmap {A B C} (h : A → B) (k : A → B → list C) (l : list A) :
  zip l (h <$> l) ≫= (λ p, k p.1 p.2) = l ≫= (λ x, k x (h x)).
Proof. induction l as [|x l IH]; [done|]. cbn. by rewrite IH. Qed.

Lemma columns_restrict_rows `{Countable K} (idx : gset K) (cs : list (Key * gmap K Z)) :
  (restrict_rows idx <$> cs).*1 = cs.*1.
Proof. rewrite <- list_fmap_compose. by apply list_fmap_ext. Qed.

Lemma concat_columns_columns `{Countable K} (frames : list (Frame K)) g :
  concat_columns frames = Ok g → columns g = frames ≫= columns.
Proof.
  intros (_ & Hcols & _)%concat_columns_Ok. unfold columns at 1.
  rewrite Hcols, fmap_list_bind. apply list_bind_ext; [|done].
  intros f. apply columns_restrict_rows.
Qed.

Section Noncommon_columns.
Variable set_iter : SetIter.
Hypothesis set_iter_valid : SetIter_valid set_iter.

Lemma NoDup_bind_iterate `{Countable A} (sets : list (gset A)) :
  NoDup (sets ≫= iterate set_iter) ↔ pairwise_disjoint sets.
Proof.
  induction sets as [|s sets IH]; cbn [pairwise_disjoint].
  - split; [done|constructor].
  - rewrite bind_cons, NoDup_app, IH.
    pose proof (SetIter_valid_NoDup set_iter s set_iter_valid) as Hnd.
    assert ((∀ x, x ∈ iterate set_iter s → x ∉ sets ≫= iterate set_iter)
            ↔ Forall (λ s', s ## s') sets) as ->; [|tauto].
    rewrite Forall_forall. split.
    + intros Hx s' Hs'. apply elem_of_disjoint. intros x Hxs Hxs'.
      apply (Hx x); [by apply SetIter_valid_elem_of|].
      apply list_elem_of_bind. exists s'. split; [|done].
      by apply SetIter_valid_elem_of.
    + intros Hd x Hx (s' & Hxs' & Hs')%list_elem_of_bind.
      apply SetIter_valid_elem_of in Hx, Hxs'; [|done..].
      by apply (proj1 (elem_of_disjoint _ _) (Hd s' Hs') x).
Qed.

(** The column labels of the run-specific table, run after run. *)
Lemma merge_noncommon_columns_list dfs2 common g :
  Forall (λ f, NoDup (columns f)) dfs2 →
  set_intersection ((λ df, list_to_set (C:=gset Key) (columns df)) <$> dfs2)
    = Ok common →
  merge_noncommon set_iter dfs2 = Ok g →
  columns g = dfs2 ≫= (λ f, iterate set_iter (list_to_set (columns f) ∖ common)).
Proof.
  intros Hnd Hs. unfold merge_noncommon. rewrite Hs. cbn [mbind Result_bind].
  destruct (traverse _ _) as [l1|e] eqn:H1; [|done]. cbn [mbind Result_bind].
  intros Hg%concat_columns_columns. rewrite Hg.
  apply traverse_Ok in H1. rewrite <- list_fmap_compose in H1.
  rewrite <- (bind_zip_fmap (λ f : Frame (string * Z), list_to_set (columns f) ∖ common)
                (λ _ nc, iterate set_iter nc) dfs2).
  symmetry. apply Forall2_bind_eq.
  apply Forall2_same_length_lookup_2; [by eapply Forall2_length|].
  intros j [f nc] g1 Hj Hg1.
  pose proof (Forall2_lookup_lr _ _ _ _ _ _ H1 Hj Hg1) as Hloc. cbn [fst snd] in *.
  apply lookup_zip_with_Some in Hj as (f' & nc' & [= <- <-] & Hf & Hnc).
  rewrite list_lookup_fmap, Hf in Hnc. cbn in Hnc. simplify_eq.
  apply list_elem_of_lookup_2 in Hf. rewrite Forall_forall in Hnd.
  destruct (loc_columns_subset set_iter f (list_to_set (columns f) ∖ common)
              set_iter_valid (Hnd f Hf)) as (g' & Hg' & Hcols & _);
    [apply subseteq_difference_l; done|].
  congruence.
Qed.

(** X4.  What the check is for: when every run has distinct column names,
    the run-specific table built by [process_multi] (lines 130 to 139) has
    distinct column labels exactly when [check_column_sets] accepts the
    column sets of the runs; a rejected collection yields a table in which
    some label occurs twice. *)
Theorem merge_noncommon_NoDup_iff_check dfs2 g :
  Forall (λ f, NoDup (columns f)) dfs2 →
  merge_noncommon set_iter dfs2 = Ok g →
  NoDup (columns g)
  ↔ check_column_sets ((λ df, list_to_set (columns df)) <$> dfs2) = Ok tt.
Proof.
  intros Hnd Hg.
  destruct (set_intersection ((λ df, list_to_set (C:=gset Key) (columns df)) <$> dfs2))
    as [common|e] eqn:Hs.
  2:{ unfold merge_noncommon in Hg. by rewrite Hs in Hg. }
  rewrite (merge_noncommon_columns_list dfs2 common g Hnd Hs Hg).
  rewrite (check_column_sets_pairwise _ common Hs).
  rewrite <- list_fmap_compose.
  rewrite <- NoDup_bind_iterate. by rewrite list_fmap_bind.
Qed.
End Noncommon_columns.

Lemma merge_noncommon_NoDup_iff_check_witness :
  SetIter_valid iter_elements
  ∧ Forall (λ f, NoDup (columns f)) sample_dfs2
  ∧ merge_noncommon iter_elements sample_dfs2 = Ok sample_dfn0
  ∧ ¬ NoDup (columns sample_dfn0).
Proof.
  assert (Forall (λ f, NoDup (columns f)) sample_dfs2) as Hnd
    by (apply (bool_decide_unpack _); by vm_compute).
  assert (merge_noncommon iter_elements sample_dfs2 = Ok sample_dfn0) as Hg
    by (apply (bool_decide_unpack _); by vm_compute).
  split; [exact iter_elements_valid|]. split; [exact Hnd|]. split; [exact Hg|].
  intros Hno.
  generalize (proj1 (merge_noncommon_NoDup_iff_check iter_elements
                       iter_elements_valid sample_dfs2 sample_dfn0 Hnd Hg) Hno).
  apply (bool_decide_eq_false_1 _). by vm_compute.
Defined.

(** ** More on metric selection *)



Lemma filter_label_bind {A B} `{EqDecision B} (key : A → option B)
    (labels : list B) (l : list A) b :
  NoDup labels →
  filter (λ a, key a = Some b) (labels ≫= (λ b', filter (λ a, key a = Some b') l))
  = if decide (b ∈ labels) then filter (λ a, key a = Some b) l else [].
Proof.
  intros Hnd. induction Hnd as [|b0 labels Hb0 Hnd IH].
  - cbn. rewrite decide_False; [done|]. by intros ?%elem_of_nil.
  - rewrite bind_cons, filter_app, IH, list_filter_filter.
    destruct (decide (b = b0)) as [->|Hne].
    + rewrite (decide_False (P:=b0 ∈ labels)) by done.
      rewrite (decide_True (P:=b0 ∈ b0 :: labels)) by left.
      rewrite app_nil_r. apply filter_ext_elem_of. tauto.
    + assert (filter (λ a, key a = Some b ∧ key a = Some b0) l = []) as ->.
      { clear IH. induction l as [|a l IHl]; [done|].
        rewrite filter_cons_False; [done|]. intros [? ?]. congruence. }
      cbn [app]. apply decide_ext. rewrite elem_of_cons. tauto.
Qed.

(** X6.  Selecting is idempotent: under an iteration order that visits
    every element of a set once, selecting the same metrics from the
    result of [select_metrics] returns that result unchanged. *)
Theorem select_metrics_idempotent `{Countable K} (set_iter : SetIter)
    (df res : Frame K) (selected_metrics : list Label) :
  SetIter_valid set_iter →
  select_metrics set_iter df selected_metrics = Ok res →
  select_metrics set_iter res selected_metrics = Ok res.
Proof.
  intros Hit. unfold select_metrics.
  destruct (list_index (Some "metric"%string) (names df)) as [j|e] eqn:Hj;
    cbn [mbind Result_bind]; [|done].
  set (possible := list_to_set (C:=gset Label) selected_metrics ∩ level_values df j).
  intros [= <-]. cbn [names loc_level]. rewrite Hj. cbn [mbind Result_bind].
  pose proof (SetIter_valid_NoDup set_iter possible Hit) as Hnd.
  assert (list_to_set (C:=gset Label) selected_metrics
            ∩ level_values (loc_level df j (iterate set_iter possible)) j = possible)
    as ->.
  { apply set_eq. intros m. unfold level_values at 1. cbn [cols loc_level].
    rewrite elem_of_intersection, !elem_of_list_to_set, list_elem_of_omap.
    split.
    - intros [_ (c & Hc & Hcm)].
      apply list_elem_of_bind in Hc as (l & Hc & Hl).
      apply list_elem_of_filter in Hc as [Hcl _].
      rewrite Hcl in Hcm. injection Hcm as ->.
      by apply (SetIter_valid_elem_of set_iter possible m Hit).
    - intros Hm. pose proof Hm as Hm'. unfold possible in Hm'.
      apply elem_of_intersection in Hm' as [Hsel Hlev].
      split; [by apply elem_of_list_to_set in Hsel|].
      unfold level_values in Hlev.
      apply elem_of_list_to_set, list_elem_of_omap in Hlev as (c & Hc & Hcm).
      exists c. split; [|done]. apply list_elem_of_bind. exists m.
      split; [by apply list_elem_of_filter|].
      by apply (SetIter_valid_elem_of set_iter possible m Hit). }
  f_equal. unfold loc_level at 1. cbn [index names cols loc_level].
  unfold loc_level. f_equal.
  apply Forall_bind_ext, Forall_forall. intros l Hl.
  rewrite (filter_label_bind (λ c : Key * gmap K Z, c.1 !! j)) by done.
  by rewrite decide_True.
Qed.

Lemma select_metrics_idempotent_witness :
  SetIter_valid iter_elements
  ∧ ∃ res, select_metrics iter_elements sample_frame_metrics [LStr "visits"; LStr "bogus"]
           = Ok res
           ∧ columns res = [[LStr "visits"; LInt 0]]
           ∧ select_metrics iter_elements res [LStr "visits"; LStr "bogus"] = Ok res.
Proof.
  split; [exact iter_elements_valid|].
  destruct (select_metrics iter_elements sample_frame_metrics
              [LStr "visits"; LStr "bogus"]) as [res|e] eqn:Hsel.
  - exists res. split; [done|]. split.
    + revert Hsel. intros [= <-]. reflexivity.
    + exact (select_metrics_idempotent iter_elements sample_frame_metrics res
               [LStr "visits"; LStr "bogus"] iter_elements_valid Hsel).
  - exfalso. revert Hsel. by vm_compute.
Defined.

(** ** The table of one run *)

Lemma NoDup_fmap_by {A B C} (g : A → B) (h : A → C) (l : list A) :
  (∀ x y, x ∈ l → y ∈ l → g x = g y → h x = h y) →
  NoDup (h <$> l) → NoDup (g <$> l).
Proof.
  induction l as [|a l IH]; intros Hgh Hnd; [constructor|].
  rewrite fmap_cons in *. apply NoDup_cons in Hnd as [Ha Hnd].
  apply NoDup_cons. split.
  - intros (y & Hy & Hin)%list_elem_of_fmap. apply Ha.
    apply list_elem_of_fmap. exists y. split; [|done].
    apply Hgh; [left|by right|done].
  - apply IH; [|done]. intros x y Hx Hy. apply Hgh; by right.
Qed.

Lemma join_one_key {A B D} `{EqDecision B} (f : A → B) (l : list A) (d : D) c :
  NoDup (f <$> l) →
  (pair d <$> filter (λ r, f r = c) l).*1 = if decide (c ∈ f <$> l) then [d] else [].
Proof.
  induction l as [|a l IH]; intros Hnd.
  - cbn. rewrite decide_False; [done|]. by intros ?%elem_of_nil.
  - rewrite fmap_cons in *. apply NoDup_cons in Hnd as [Ha Hnd].
    rewrite filter_cons. destruct (decide (f a = c)) as [<-|Hne].
    + rewrite !fmap_cons, IH by done. cbn [fst].
      rewrite (decide_False (P:=f a ∈ f <$> l)) by done.
      rewrite decide_True by left. done.
    + rewrite IH by done. apply decide_ext. rewrite elem_of_cons.
      split; [by right|]. by intros [?|?].
Qed.

Lemma elem_of_merge_on_cnode dump call_tree_df d r :
  (d, r) ∈ df_rows (merge_on_cnode dump call_tree_df)
  ↔ d ∈ dump_rows dump ∧ r ∈ call_tree_df ∧ Cnode_ID r = dump_cnode d.
Proof.
  cbn [df_rows merge_on_cnode]. rewrite list_elem_of_bind. split.
  - intros (d' & Hin & Hd').
    apply list_elem_of_fmap in Hin as (r' & [= -> ->] & Hr').
    by apply list_elem_of_filter in Hr' as [? ?].
  - intros (Hd & Hr & Hid). exists d. split; [|done].
    apply list_elem_of_fmap. exists r. split; [done|].
    by apply list_elem_of_filter.
Qed.

Lemma merge_on_cnode_dump_rows dump call_tree_df :
  NoDup (Cnode_ID <$> call_tree_df) →
  (df_rows (merge_on_cnode dump call_tree_df)).*1
  = filter (λ d, dump_cnode d ∈ Cnode_ID <$> call_tree_df) (dump_rows dump).
Proof.
  intros Hnd. cbn [df_rows merge_on_cnode].
  induction (dump_rows dump) as [|d ds IH]; [done|].
  rewrite bind_cons, fmap_app, IH, filter_cons.
  rewrite (join_one_key Cnode_ID call_tree_df d (dump_cnode d) Hnd).
  by case_decide.
Qed.

Section Process_cubex.
Variable get_call_tree : string → CallTreeNode.
Variable calltree_to_df2 : CallTreeNode → list TreeRow.
Variable get_dump : string → Dump.
Variable get_inclusive_convertible_metrics : string → list string.

Local Abbreviation cubex :=
  (process_cubex get_call_tree calltree_to_df2 get_dump
     get_inclusive_convertible_metrics).


(** X8.  When the call-tree table of a run lists every Cnode ID and every
    full callpath once, and the dump has one row per pair of Cnode ID and
    thread, the table of [process_cubex] has one row per pair of full
    callpath and thread, so the re-indexing of [adjust_df] in
    [process_multi] goes through and keeps every row. *)
Theorem process_cubex_unique_row_keys (profile_file : string) :
  NoDup (Cnode_ID <$> calltree_df (cubex profile_file)) →
  NoDup (Full_Callpath <$> calltree_df (cubex profile_file)) →
  NoDup ((λ d, (dump_cnode d, dump_thread d)) <$> dump_rows (get_dump profile_file)) →
  NoDup (row_key <$> df_rows (df (cubex profile_file)))
  ∧ ∃ f, adjust_df (df (cubex profile_file)) = Ok f
         ∧ size (index f) = length (df_rows (df (cubex profile_file))).
Proof.
  intros Hid Hpath Hdump.
  assert (NoDup (row_key <$> df_rows (df (cubex profile_file)))) as Hkeys.
  { cbn [df calltree_df process_cubex] in *.
    apply (NoDup_fmap_by _ (λ dr, (dump_cnode dr.1, dump_thread dr.1))).
    - intros [d1 r1] [d2 r2] [_ [Hr1 Hc1]]%elem_of_merge_on_cnode
        [_ [Hr2 Hc2]]%elem_of_merge_on_cnode [= Hp Ht].
      cbn [fst snd] in *. f_equal; [|done]. rewrite <- Hc1, <- Hc2. f_equal.
      apply list_elem_of_lookup in Hr1 as [i1 Hi1].
      apply list_elem_of_lookup in Hr2 as [i2 Hi2].
      assert (i1 = i2) as ->; [|congruence].
      apply (NoDup_lookup _ _ _ (Full_Callpath r1) Hpath);
        rewrite list_lookup_fmap; [by rewrite Hi1|by rewrite Hi2, Hp].
    - change (λ dr : DumpRow * TreeRow, (dump_cnode dr.1, dump_thread dr.1))
        with ((λ d, (dump_cnode d, dump_thread d)) ∘ (fst : DumpRow * TreeRow → _)).
      rewrite list_fmap_compose, merge_on_cnode_dump_rows by done.
      eapply sublist_NoDup; [exact Hdump|apply fmap_sublist, sublist_filter]. }
  split; [done|]. unfold adjust_df. rewrite decide_True by done.
  eexists. split; [done|]. cbn [index].
  rewrite size_list_to_set by done. by rewrite length_fmap.
Qed.
End Process_cubex.


Lemma process_cubex_unique_row_keys_witness :
  NoDup (Cnode_ID <$> calltree_df (process_cubex (λ _, sample_tree) (tree_rows "")
                                     sample_dump (λ _, []) "run0"%string))
  ∧ NoDup (Full_Callpath <$> calltree_df (process_cubex (λ _, sample_tree)
                                            (tree_rows "") sample_dump (λ _, [])
                                            "run0"%string))
  ∧ NoDup ((λ d, (dump_cnode d, dump_thread d))
             <$> dump_rows (sample_dump "run0"%string))
  ∧ NoDup (row_key <$> df_rows (df (process_cubex (λ _, sample_tree) (tree_rows "")
                                      sample_dump (λ _, []) "run0"%string))).
Proof.
  assert (NoDup (Cnode_ID <$> calltree_df (process_cubex (λ _, sample_tree)
                                             (tree_rows "") sample_dump (λ _, [])
                                             "run0"%string)))
    as Hid by (apply (bool_decide_unpack _); by vm_compute).
  assert (NoDup (Full_Callpath <$> calltree_df (process_cubex (λ _, sample_tree)
                                                  (tree_rows "") sample_dump (λ _, [])
                                                  "run0"%string)))
    as Hpath by (apply (bool_decide_unpack _); by vm_compute).
  assert (NoDup ((λ d, (dump_cnode d, dump_thread d))
                   <$> dump_rows (sample_dump "run0"%string)))
    as Hdump by (apply (bool_decide_unpack _); by vm_compute).
  split; [exact Hid|]. split; [exact Hpath|]. split; [exact Hdump|].
  exact (proj1 (process_cubex_unique_row_keys (λ _, sample_tree) (tree_rows "")
                  sample_dump (λ _, []) "run0"%string Hid Hpath Hdump)).
Defined.

(** ** The shape of the merged tables *)

Lemma merge_common_Raise_kind (set_iter : SetIter) dfs2 e :
  merge_common set_iter dfs2 = Raise e →
  e = TypeError ∨ e = KeyError ∨ e = ValueError.
Proof.
  unfold merge_common.
  destruct (set_intersection _) as [common|e'] eqn:Hs; cbn [mbind Result_bind].
  2:{ intros [= <-]. apply set_intersection_Raise in Hs as ->. tauto. }
  destruct (traverse _ dfs2) as [l1|e'] eqn:H1; cbn [mbind Result_bind].
  2:{ intros [= <-]. apply traverse_Raise in H1 as (x & _ & Hx).
      apply loc_columns_Raise in Hx as ->. tauto. }
  destruct (traverse _ (imap pair l1)) as [l2|e'] eqn:H2; cbn [mbind Result_bind].
  2:{ intros [= <-]. apply traverse_Raise in H2 as (x & _ & Hx).
      apply set_columns_Raise in Hx as ->. tauto. }
  intros ->%concat_columns_Raise. tauto.
Qed.

Lemma merge_noncommon_Raise_kind (set_iter : SetIter) dfs2 e :
  merge_noncommon set_iter dfs2 = Raise e →
  e = TypeError ∨ e = KeyError ∨ e = ValueError.
Proof.
  unfold merge_noncommon.
  destruct (set_intersection _) as [common|e'] eqn:Hs; cbn [mbind Result_bind].
  2:{ intros [= <-]. apply set_intersection_Raise in Hs as ->. tauto. }
  destruct (traverse _ _) as [l1|e'] eqn:H1; cbn [mbind Result_bind].
  2:{ intros [= <-]. apply traverse_Raise in H1 as (x & _ & Hx).
      apply loc_columns_Raise in Hx as ->. tauto. }
  intros ->%concat_columns_Raise. tauto.
Qed.

(** The column labels of the common table before the re-keying: run by
    run, the common labels in the order of the set iteration, each under
    the position of the run. *)
Lemma merge_common_columns_list (set_iter : SetIter)
    (dfs2 : list (Frame (string * Z))) (common : gset Key) (g : Frame (string * Z)) :
  set_intersection ((λ df, list_to_set (C:=gset Key) (columns df)) <$> dfs2)
    = Ok common →
  merge_common set_iter dfs2 = Ok g →
  names g = [Some "run"; Some "metric"]%string
  ∧ columns g
    = i ← seq 0 (length dfs2);
      (λ col, LInt (Z.of_nat i) :: col) <$> iterate set_iter common.
Proof.
  intros Hs. unfold merge_common. rewrite Hs. cbn [mbind Result_bind].
  destruct (traverse _ dfs2) as [l1|e] eqn:H1; [|done]. cbn [mbind Result_bind].
  destruct (traverse _ (imap pair l1)) as [l2|e] eqn:H2; [|done].
  cbn [mbind Result_bind]. intros Hg.
  apply traverse_Ok in H1, H2.
  pose proof (Forall2_length _ _ _ H1) as Hlen1.
  pose proof (Forall2_length _ _ _ H2) as Hlen2. rewrite length_imap in Hlen2.
  split.
  - apply concat_columns_Ok in Hg as (_ & _ & Hn).
    destruct l2 as [|g2 l2]; [done|]. cbn in Hn. injection Hn as <-.
    destruct (Forall2_lookup_r _ _ _ 0%nat g2 H2 eq_refl) as (ig & _ & Hset).
    by apply set_columns_Ok in Hset as (_ & ? & _).
  - rewrite (concat_columns_columns _ _ Hg). apply Forall2_bind_eq.
    apply Forall2_same_length_lookup_2; [rewrite length_seq; lia|].
    intros j g2 i Hj Hi. apply lookup_seq in Hi as [-> _]. cbn [plus].
    destruct (Forall2_lookup_r _ _ _ _ _ H2 Hj) as ([i g1] & Hig & Hset).
    rewrite list_lookup_imap in Hig.
    destruct (l1 !! j) as [g1'|]; [|done]. cbn in Hig. injection Hig as <- <-.
    apply set_columns_Ok in Hset as (_ & _ & Hcols & Hlen). cbn [fst snd] in *.
    unfold columns. rewrite Hcols. apply fst_zip. rewrite Hlen, length_fmap. lia.
Qed.

Lemma list_bind_bind {A B C} (f : A → list B) (g : B → list C) (l : list A) :
  (l ≫= f) ≫= g = l ≫= (λ x, f x ≫= g).
Proof.
  induction l as [|x l IH]; [done|]. by rewrite !bind_cons, bind_app, IH.
Qed.

Lemma replace_columns_list (tmp : list (string * Z)) (df : Frame (string * Z)) :
  names (replace_fcpath_with_cnodeID tmp df) = names df ++ [Some "Thread ID"%string]
  ∧ columns (replace_fcpath_with_cnodeID tmp df)
    = c ← columns df; (λ t, c ++ [LInt t]) <$> thread_labels (index df).
Proof.
  split; [done|].
  unfold columns, replace_fcpath_with_cnodeID. cbn [cols join_set_index unstack_thread].
  rewrite <- list_fmap_compose, fmap_list_bind, list_fmap_bind.
  apply list_bind_ext; [|done]. intros c. cbn. by rewrite <- list_fmap_compose.
Qed.


(** The column labels of the common table after the re-keying. *)
Lemma merged_common_columns (set_iter : SetIter) (tmp : list (string * Z))
    (dfs2 : list (Frame (string * Z))) (common : gset Key) (dfc0 : Frame (string * Z)) :
  set_intersection ((λ df, list_to_set (C:=gset Key) (columns df)) <$> dfs2)
    = Ok common →
  merge_common set_iter dfs2 = Ok dfc0 →
  columns (replace_fcpath_with_cnodeID tmp dfc0)
  = i ← seq 0 (length dfs2);
    c ← iterate set_iter common;
    t ← thread_labels (index dfc0);
    [LInt (Z.of_nat i) :: c ++ [LInt t]].
Proof.
  intros Hs Hc.
  destruct (merge_common_columns_list set_iter dfs2 common dfc0 Hs Hc) as [_ Hcols].
  rewrite (proj2 (replace_columns_list tmp dfc0)), Hcols.
  rewrite list_bind_bind. apply list_bind_ext; [|done]. intros i.
  rewrite list_fmap_bind. apply list_bind_ext; [|done]. intros c. cbn.
  induction (thread_labels (index dfc0)) as [|t ts IH]; [done|].
  by rewrite fmap_cons, bind_cons, IH.
Qed.

Lemma NoDup_thread_labels (idx : gset (string * Z)) : NoDup (thread_labels idx).
Proof. unfold thread_labels. rewrite merge_sort_Permutation. apply NoDup_elements. Qed.

(** The labels (run, metric, thread) built from runs, metrics and threads
    without repetition are distinct. *)
Lemma NoDup_run_metric_thread (n : nat) (metrics : list Key) (threads : list Z) :
  NoDup metrics → NoDup threads →
  NoDup (i ← seq 0 n; c ← metrics; t ← threads; [LInt (Z.of_nat i) :: c ++ [LInt t]]).
Proof.
  intros Hm Ht.
  assert (∀ i i' c c' t t' (y : Key),
            y ∈ [LInt (Z.of_nat i) :: c ++ [LInt t]] →
            y ∈ [LInt (Z.of_nat i') :: c' ++ [LInt t']] →
            i = i' ∧ c = c' ∧ t = t') as Hinj.
  { intros i i' c c' t t' y ->%list_elem_of_singleton [= Hi Hc]%list_elem_of_singleton.
    apply app_inj_tail in Hc as [-> [= ->]]. split; [lia|done]. }
  apply NoDup_bind; [| |apply NoDup_seq].
  - intros i i' y _ _ (c & (t & Hy & _)%list_elem_of_bind & _)%list_elem_of_bind
      (c' & (t' & Hy' & _)%list_elem_of_bind & _)%list_elem_of_bind.
    by destruct (Hinj _ _ _ _ _ _ _ Hy Hy') as [? _].
  - intros i _. apply NoDup_bind; [| |done].
    + intros c c' y _ _ (t & Hy & _)%list_elem_of_bind (t' & Hy' & _)%list_elem_of_bind.
      by destruct (Hinj _ _ _ _ _ _ _ Hy Hy') as (_ & ? & _).
    + intros c _. apply NoDup_bind; [| |done].
      * intros t t' y _ _ Hy Hy'.
        by destruct (Hinj _ _ _ _ _ _ _ Hy Hy') as (_ & _ & ?).
      * intros t _. apply NoDup_singleton.
Qed.

Section Merged_shape.
Variable get_call_tree : string → CallTreeNode.
Variable calltree_to_df2 : CallTreeNode → list TreeRow.
Variable get_dump : string → Dump.
Variable get_inclusive_convertible_metrics : string → list string.
Variable set_iter : SetIter.

Local Abbreviation cubex :=
  (process_cubex get_call_tree calltree_to_df2 get_dump
                 get_inclusive_convertible_metrics).
Local Abbreviation multi :=
  (process_multi get_call_tree calltree_to_df2 get_dump
                 get_inclusive_convertible_metrics set_iter).

(** X9.  [process_multi] raises [IndexError] (from [profile_files[0]])
    exactly when it is given no file: no later step of the merge raises
    this exception. *)
Theorem process_multi_IndexError_iff (profile_files : list string) :
  process_multi get_call_tree calltree_to_df2 get_dump
    get_inclusive_convertible_metrics set_iter profile_files = Raise IndexError
  ↔ profile_files = [].
Proof.
  split; [|by intros ->].
  unfold process_multi. destruct profile_files as [|first_file rest]; [done|].
  destruct (traverse adjust_df _) as [dfs2|e'] eqn:H2; cbn [mbind Result_bind].
  2:{ intros [= ->]. apply traverse_Raise in H2 as (d & _ & Hd).
      by apply adjust_df_Raise in Hd. }
  destruct (merge_common set_iter dfs2) as [dfc0|e'] eqn:Hc; cbn [mbind Result_bind].
  2:{ intros [= ->]. by apply merge_common_Raise_kind in Hc as [?|[?|?]]. }
  destruct (merge_noncommon set_iter dfs2) as [dfn0|e'] eqn:Hn; cbn [mbind Result_bind].
  2:{ intros [= ->]. by apply merge_noncommon_Raise_kind in Hn as [?|[?|?]]. }
  done.
Qed.

(** The column sets of the adjusted tables, by run. *)
Lemma adjusted_columns (profile_files : list string)
    (dfs2 : list (Frame (string * Z))) :
  traverse adjust_df ((λ pf, df (cubex pf)) <$> profile_files) = Ok dfs2 →
  Forall2 (λ pf f, columns f = (λ m, [LStr m]) <$> df_metrics (df (cubex pf)))
          profile_files dfs2.
Proof.
  intros H2%traverse_Ok. apply Forall2_fmap_l in H2.
  eapply Forall2_impl; [exact H2|]. intros pf f Hf. cbn in Hf.
  by apply adjust_df_Ok in Hf as (_ & _ & ?).
Qed.

Lemma common_metrics (profile_files : list string)
    (dfs2 : list (Frame (string * Z))) (common : gset Key) (c : Key) :
  profile_files ≠ [] →
  traverse adjust_df ((λ pf, df (cubex pf)) <$> profile_files) = Ok dfs2 →
  set_intersection ((λ df, list_to_set (C:=gset Key) (columns df)) <$> dfs2)
    = Ok common →
  c ∈ common
  ↔ ∃ m, c = [LStr m] ∧ ∀ pf, pf ∈ profile_files → m ∈ df_metrics (df (cubex pf)).
Proof.
  intros Hne H2%adjusted_columns Hs.
  rewrite (set_intersection_spec _ _ c Hs).
  assert (∀ pf (f : Frame (string * Z)) m,
            columns f = (λ m, [LStr m]) <$> df_metrics (df (cubex pf)) →
            [LStr m] ∈ list_to_set (C:=gset Key) (columns f)
            ↔ m ∈ df_metrics (df (cubex pf))) as Hin.
  { intros pf f m ->. rewrite elem_of_list_to_set, list_elem_of_fmap. split.
    - by intros (m' & [= ->] & ?).
    - intros ?. by exists m. }
  split.
  - intros Hall. destruct profile_files as [|pf0 rest]; [done|].
    destruct (Forall2_lookup_l _ _ _ 0%nat pf0 H2 eq_refl) as (f0 & Hf0 & Hcols0).
    assert (c ∈ list_to_set (C:=gset Key) (columns f0)) as Hc0.
    { apply Hall.
      apply (list_elem_of_fmap_2 (λ df, list_to_set (C:=gset Key) (columns df))).
      by eapply list_elem_of_lookup_2. }
    rewrite Hcols0, elem_of_list_to_set, list_elem_of_fmap in Hc0.
    destruct Hc0 as (m & -> & Hm). exists m. split; [done|].
    intros pf [j Hj]%list_elem_of_lookup.
    destruct (Forall2_lookup_l _ _ _ j pf H2 Hj) as (f & Hf & Hcols).
    apply (Hin pf f m Hcols). apply Hall.
    apply (list_elem_of_fmap_2 (λ df, list_to_set (C:=gset Key) (columns df))).
    by eapply list_elem_of_lookup_2.
  - intros (m & -> & Hall) s (f & -> & [j Hj]%list_elem_of_lookup)%list_elem_of_fmap.
    destruct (Forall2_lookup_r _ _ _ j f H2 Hj) as (pf & Hpf & Hcols).
    apply (Hin pf f m Hcols), Hall. by eapply list_elem_of_lookup_2.
Qed.

(** X10.  The column labels of the common table of [process_multi]: the
    three levels are named run, metric and Thread ID, and the labels are,
    for every run in the order of [profile_files] (the run level is the
    position of the file in the list), for every metric that all runs
    have, in the iteration order of the set of common metrics, and for
    every thread of a (Full Callpath, Thread ID) pair that all runs have,
    in increasing order, the triple (run, metric, thread). *)
Theorem process_multi_common_columns profile_files call_tree df_common df_noncommon :
  multi profile_files = Ok (call_tree, df_common, df_noncommon) →
  ∃ (common : gset Key) (rows : gset (string * Z)),
    (∀ c, c ∈ common
          ↔ ∃ m, c = [LStr m]
                 ∧ ∀ pf, pf ∈ profile_files → m ∈ df_metrics (df (cubex pf)))
    ∧ (∀ k, k ∈ rows ↔ ∀ pf, pf ∈ profile_files → k ∈ run_keys (df (cubex pf)))
    ∧ names df_common = [Some "run"; Some "metric"; Some "Thread ID"]%string
    ∧ columns df_common
      = i ← seq 0 (length profile_files);
        c ← iterate set_iter common;
        t ← thread_labels rows;
        [LInt (Z.of_nat i) :: c ++ [LInt t]].
Proof.
  intros Hrun.
  destruct (process_multi_Ok _ _ _ _ _ _ _ _ _ Hrun)
    as (first_file & rest & dfs2 & dfc0 & dfn0 & Hfiles & H2 & Hc & Hn & _ & -> & _).
  destruct (set_intersection ((λ df, list_to_set (C:=gset Key) (columns df)) <$> dfs2))
    as [common|e] eqn:Hs.
  2:{ unfold merge_common in Hc. by rewrite Hs in Hc. }
  exists common, (index dfc0).
  split. { intros c. apply (common_metrics profile_files dfs2); [by subst|done..]. }
  split. { by apply (merged_indexes _ _ _ _ _ _ _ _ _ H2 Hc Hn). }
  destruct (merge_common_columns_list set_iter dfs2 common dfc0 Hs Hc) as [Hnames _].
  split. { by rewrite (proj1 (replace_columns_list _ dfc0)), Hnames. }
  rewrite (merged_common_columns set_iter _ dfs2 common dfc0 Hs Hc).
  apply traverse_Ok, Forall2_length in H2. rewrite length_fmap in H2.
  by rewrite <- H2.
Qed.

(** X11.  Under an iteration order that visits every element of a set
    once, no two columns of the common table of [process_multi] carry
    the same (run, metric, thread) label. *)
Theorem process_multi_common_columns_NoDup profile_files call_tree df_common
    df_noncommon :
  SetIter_valid set_iter →
  multi profile_files = Ok (call_tree, df_common, df_noncommon) →
  NoDup (columns df_common).
Proof.
  intros Hit Hrun.
  destruct (process_multi_Ok _ _ _ _ _ _ _ _ _ Hrun)
    as (first_file & rest & dfs2 & dfc0 & dfn0 & Hfiles & H2 & Hc & Hn & _ & -> & _).
  destruct (set_intersection ((λ df, list_to_set (C:=gset Key) (columns df)) <$> dfs2))
    as [common|e] eqn:Hs.
  2:{ unfold merge_common in Hc. by rewrite Hs in Hc. }
  rewrite (merged_common_columns set_iter _ dfs2 common dfc0 Hs Hc).
  apply NoDup_run_metric_thread.
  - by apply SetIter_valid_NoDup.
  - apply NoDup_thread_labels.
Qed.

(** X12.  When all the runs have the same metrics (in particular when
    there is one run), the run-specific table of [process_multi] has no
    column. *)
Theorem process_multi_same_metrics profile_files call_tree df_common df_noncommon :
  SetIter_valid set_iter →
  multi profile_files = Ok (call_tree, df_common, df_noncommon) →
  (∀ pf pf' m, pf ∈ profile_files → pf' ∈ profile_files →
     m ∈ df_metrics (df (cubex pf)) → m ∈ df_metrics (df (cubex pf'))) →
  cols df_noncommon = [].
Proof.
  intros Hit Hrun Hsame.
  destruct (process_multi_Ok _ _ _ _ _ _ _ _ _ Hrun)
    as (first_file & rest & dfs2 & dfc0 & dfn0 & Hfiles & H2 & Hc & Hn & _ & _ & ->).
  destruct (set_intersection ((λ df, list_to_set (C:=gset Key) (columns df)) <$> dfs2))
    as [common|e] eqn:Hs.
  2:{ unfold merge_common in Hc. by rewrite Hs in Hc. }
  assert (cols dfn0 = []) as Hnil.
  { destruct (cols dfn0) as [|c0 cs] eqn:Hcols; [done|]. exfalso.
    assert (c0.1 ∈ columns dfn0) as Hin.
    { unfold columns. rewrite Hcols, fmap_cons. left. }
    apply (merge_noncommon_columns set_iter Hit dfs2 common dfn0 c0.1 Hs Hn) in Hin
      as (f & [j Hj]%list_elem_of_lookup & Hcf & Hnot).
    apply Hnot.
    destruct (Forall2_lookup_r _ _ _ j f (adjusted_columns _ _ H2) Hj)
      as (pf & Hpf & Hcolsf).
    rewrite Hcolsf in Hcf. apply list_elem_of_fmap in Hcf as (m & -> & Hm).
    apply (common_metrics profile_files dfs2 common [LStr m]); [by subst|done..|].
    exists m. split; [done|]. intros pf' Hpf'.
    apply (Hsame pf pf' m); [by eapply list_elem_of_lookup_2|done..]. }
  unfold replace_fcpath_with_cnodeID. cbn [cols join_set_index unstack_thread].
  by rewrite Hnil.
Qed.


(** X14.  The common table of [process_multi] cannot be passed as it is
    to [convert_df_to_inclusive]: with the run level its columns have
    three levels, and the conversion, which names three levels of the
    stacked rows, needs two; the conversion raises [KeyError] when the
    table lacks a node of the tree and [ValueError] otherwise. *)
Theorem process_multi_convert_df profile_files call_tree df_common df_noncommon
    (tree : CallTreeNode) :
  multi profile_files = Ok (call_tree, df_common, df_noncommon) →
  outcome (convert_df_to_inclusive df_common tree)
  = Raise (if decide (covers (frame_row df_common) tree) then ValueError else KeyError).
Proof.
  intros Hrun.
  destruct (process_multi_Ok _ _ _ _ _ _ _ _ _ Hrun)
    as (first_file & rest & dfs2 & dfc0 & dfn0 & Hfiles & H2 & Hc & Hn & _ & -> & _).
  destruct (set_intersection ((λ df, list_to_set (C:=gset Key) (columns df)) <$> dfs2))
    as [common|e] eqn:Hs.
  2:{ unfold merge_common in Hc. by rewrite Hs in Hc. }
  destruct (merge_common_columns_list set_iter dfs2 common dfc0 Hs Hc) as [Hnames _].
  set (dfc := replace_fcpath_with_cnodeID _ dfc0).
  assert (length (names dfc) = 3%nat) as Hlen.
  { unfold dfc. by rewrite (proj1 (replace_columns_list _ dfc0)), Hnames. }
  unfold convert_df_to_inclusive, outcome.
  destruct (decide (covers (frame_row dfc) tree)) as [Hcov|Hcov].
  - rewrite (aggregate_all_covered (frame_row dfc) row_add [] tree Hcov).
    unfold mbind, Traced_bind. cbn [fst snd].
    rewrite decide_False by lia. done.
  - pose proof (aggregate_all_missing (frame_row dfc) row_add [] tree Hcov) as Hm.
    unfold mbind, Traced_bind. by rewrite Hm.
Qed.
End Merged_shape.

Lemma sample_merged_run :
  process_multi (λ _, sample_tree) (tree_rows "") sample_dump (λ _, [])
      iter_elements sample_files
    = Ok (sample_merged.1.1, sample_merged.1.2, sample_merged.2).
Proof. vm_compute. reflexivity. Qed.

Lemma sample_single_run :
  process_multi (λ _, sample_tree) (tree_rows "") sample_dump (λ _, [])
      iter_elements ["run2"%string]
    = Ok (sample_single.1.1, sample_single.1.2, sample_single.2).
Proof. vm_compute. reflexivity. Qed.

Lemma process_multi_common_columns_witness :
  process_multi (λ _, sample_tree) (tree_rows "") sample_dump (λ _, [])
      iter_elements sample_files
    = Ok (sample_merged.1.1, sample_merged.1.2, sample_merged.2)
  ∧ names sample_merged.1.2 = [Some "run"; Some "metric"; Some "Thread ID"]%string
  ∧ length (columns sample_merged.1.2) = 3%nat.
Proof.
  split; [exact sample_merged_run|].
  destruct (process_multi_common_columns (λ _, sample_tree) (tree_rows "")
              sample_dump (λ _, []) iter_elements sample_files
              sample_merged.1.1 sample_merged.1.2 sample_merged.2 sample_merged_run)
    as (common & rows & _ & _ & Hnames & _).
  split; [exact Hnames|]. reflexivity.
Defined.

Lemma process_multi_same_metrics_witness :
  SetIter_valid iter_elements
  ∧ process_multi (λ _, sample_tree) (tree_rows "") sample_dump (λ _, [])
        iter_elements ["run2"%string]
      = Ok (sample_single.1.1, sample_single.1.2, sample_single.2)
  ∧ columns sample_single.1.2 = [[LInt 0; LStr "a"; LInt 0]]
  ∧ cols sample_single.2 = [].
Proof.
  split; [exact iter_elements_valid|]. split; [exact sample_single_run|].
  split; [reflexivity|].
  apply (process_multi_same_metrics (λ _, sample_tree) (tree_rows "")
           sample_dump (λ _, []) iter_elements ["run2"%string]
           sample_single.1.1 sample_single.1.2 sample_single.2
           iter_elements_valid sample_single_run).
  intros pf pf' m ->%list_elem_of_singleton ->%list_elem_of_singleton. done.
Defined.


Lemma process_multi_convert_df_witness :
  process_multi (λ _, sample_tree) (tree_rows "") sample_dump (λ _, [])
      iter_elements sample_files
    = Ok (sample_merged.1.1, sample_merged.1.2, sample_merged.2)
  ∧ outcome (convert_df_to_inclusive sample_merged.1.2 sample_B) = Raise ValueError
  ∧ outcome (convert_df_to_inclusive sample_merged.1.2 sample_tree) = Raise KeyError.
Proof.
  split; [exact sample_merged_run|]. split.
  - rewrite (process_multi_convert_df (λ _, sample_tree) (tree_rows "")
               sample_dump (λ _, []) iter_elements sample_files
               sample_merged.1.1 sample_merged.1.2 sample_merged.2 sample_B
               sample_merged_run).
    reflexivity.
  - rewrite (process_multi_convert_df (λ _, sample_tree) (tree_rows "")
               sample_dump (λ _, []) iter_elements sample_files
               sample_merged.1.1 sample_merged.1.2 sample_merged.2 sample_tree
               sample_merged_run).
    reflexivity.
Defined.

Lemma process_multi_common_columns_NoDup_witness :
  SetIter_valid iter_elements
  ∧ process_multi (λ _, sample_tree) (tree_rows "") sample_dump (λ _, [])
        iter_elements sample_files
      = Ok (sample_merged.1.1, sample_merged.1.2, sample_merged.2)
  ∧ NoDup (columns sample_merged.1.2).
Proof.
  split; [exact iter_elements_valid|]. split; [exact sample_merged_run|].
  exact (process_multi_common_columns_NoDup (λ _, sample_tree) (tree_rows "")
           sample_dump (λ _, []) iter_elements sample_files
           sample_merged.1.1 sample_merged.1.2 sample_merged.2
           iter_elements_valid sample_merged_run).
Defined.

(** ** More on the conversions *)

Section Aggregate_local.
Context {V : Type}.
Variables table1 table2 : Z → option V.
Variable add : V → V → V.


End Aggregate_local.


















(** ** The values of the merged tables *)

Lemma adjust_df_cell (d : CubexDf) (f : Frame (string * Z)) (j : nat) (m : string)
    (dr : DumpRow * TreeRow) :
  adjust_df d = Ok f → df_metrics d !! j = Some m → dr ∈ df_rows d →
  ∃ c, c ∈ cols f ∧ c.1 = [LStr m] ∧ c.2 !! row_key dr = dump_values dr.1 !! j.
Proof.
  unfold adjust_df. case_decide as Hnd; [|done]. intros [= <-] Hm Hdr. cbn [cols].
  eexists. split.
  - apply list_elem_of_lookup. exists j. by rewrite list_lookup_imap, Hm.
  - split; [done|]. cbn [snd].
    apply (list_to_map_omap_lookup row_key (λ r, dump_values r.1 !! j) _ dr Hnd Hdr).
Qed.

(** In a frame with distinct column labels, [df.loc[:, labels]] puts at
    the position of a label the column that carries it. *)
Lemma loc_columns_cell `{Countable K} (f g : Frame K) (labels : list Key) (k : nat)
    (c : Key * gmap K Z) :
  loc_columns f labels = Ok g → NoDup (columns f) →
  labels !! k = Some c.1 → c ∈ cols f → cols g !! k = Some c.
Proof.
  intros (_ & _ & -> & Hall)%loc_columns_Ok Hnd Hk Hc. unfold columns in *.
  revert k Hk. induction Hall as [|x labels Hx _ IH]; intros k Hk; [done|].
  rewrite bind_cons.
  destruct (filter_label_singleton (cols f) x Hnd Hx) as (c0 & Hc0 & Hx0).
  rewrite Hc0. destruct k as [|k]; cbn in *.
  - injection Hk as ->. f_equal.
    assert (c ∈ filter (λ c' : Key * gmap K Z, c'.1 = c.1) (cols f)) as Hin
      by (by apply list_elem_of_filter).
    rewrite Hc0 in Hin. by apply list_elem_of_singleton in Hin.
  - by apply IH.
Qed.

Lemma concat_columns_cell `{Countable K} (frames : list (Frame K)) (g g' : Frame K)
    (c : Key * gmap K Z) (k : K) :
  concat_columns frames = Ok g → g' ∈ frames → c ∈ cols g' → k ∈ index g →
  ∃ c', c' ∈ cols g ∧ c'.1 = c.1 ∧ c'.2 !! k = c.2 !! k.
Proof.
  intros (_ & Hcols & _)%concat_columns_Ok Hg' Hc Hk.
  exists (restrict_rows (index g) c). split.
  - rewrite Hcols. apply list_elem_of_bind. exists g'. split; [|done].
    by apply list_elem_of_fmap_2.
  - split; [done|]. unfold restrict_rows. cbn [snd].
    destruct (c.2 !! k) as [v|] eqn:Hv.
    + by apply map_lookup_filter_Some.
    + apply map_lookup_filter_None. left. done.
Qed.

Section Merge_values.
Variable set_iter : SetIter.
Hypothesis set_iter_valid : SetIter_valid set_iter.

Lemma merge_common_cell (dfs2 : list (Frame (string * Z))) (g f : Frame (string * Z))
    (i : nat) (c : Key * gmap (string * Z) Z) (k : string * Z) :
  Forall (λ f, NoDup (columns f)) dfs2 →
  merge_common set_iter dfs2 = Ok g →
  dfs2 !! i = Some f → c ∈ cols f →
  (∀ f', f' ∈ dfs2 → c.1 ∈ columns f') →
  k ∈ index g →
  ∃ c', c' ∈ cols g ∧ c'.1 = LInt (Z.of_nat i) :: c.1 ∧ c'.2 !! k = c.2 !! k.
Proof.
  intros Hnd Hg Hf Hc Hcommon Hk. unfold merge_common in Hg.
  destruct (set_intersection _) as [common|e] eqn:Hs; [|done].
  cbn [mbind Result_bind] in Hg.
  destruct (traverse _ dfs2) as [l1|e] eqn:H1; [|done]. cbn [mbind Result_bind] in Hg.
  destruct (traverse _ (imap pair l1)) as [l2|e] eqn:H2; [|done].
  cbn [mbind Result_bind] in Hg.
  apply traverse_Ok in H1, H2.
  destruct (Forall2_lookup_l _ _ _ _ _ H1 Hf) as (g1 & Hg1 & Hloc).
  assert (imap pair l1 !! i = Some (i, g1)) as Hig
    by (by rewrite list_lookup_imap, Hg1).
  destruct (Forall2_lookup_l _ _ _ _ _ H2 Hig) as (g2 & Hg2 & Hset).
  cbn [fst snd] in Hset.
  assert (c.1 ∈ iterate set_iter common) as [n Hn]%list_elem_of_lookup.
  { apply (SetIter_valid_elem_of set_iter common _ set_iter_valid).
    apply (set_intersection_spec _ _ _ Hs).
    intros s (f' & -> & Hf')%list_elem_of_fmap.
    apply elem_of_list_to_set. by apply Hcommon. }
  rewrite Forall_forall in Hnd.
  pose proof (loc_columns_cell f g1 _ n c Hloc
                (Hnd f (list_elem_of_lookup_2 _ _ _ Hf)) Hn Hc) as Hcell.
  apply set_columns_Ok in Hset as (_ & _ & Hcols2 & _).
  assert ((LInt (Z.of_nat i) :: c.1, c.2) ∈ cols g2) as Hc2.
  { rewrite Hcols2. apply list_elem_of_lookup. exists n.
    apply lookup_zip_with_Some. exists (LInt (Z.of_nat i) :: c.1), c.2.
    split; [done|]. split.
    - by rewrite list_lookup_fmap, Hn.
    - by rewrite list_lookup_fmap, Hcell. }
  destruct (concat_columns_cell l2 g g2 _ k Hg (list_elem_of_lookup_2 _ _ _ Hg2) Hc2 Hk)
    as (c' & Hc' & Hl & Hv).
  by exists c'.
Qed.

Lemma merge_noncommon_cell (dfs2 : list (Frame (string * Z))) (g f f0 : Frame (string * Z))
    (c : Key * gmap (string * Z) Z) (k : string * Z) :
  Forall (λ f, NoDup (columns f)) dfs2 →
  merge_noncommon set_iter dfs2 = Ok g →
  f ∈ dfs2 → c ∈ cols f →
  f0 ∈ dfs2 → c.1 ∉ columns f0 →
  k ∈ index g →
  ∃ c', c' ∈ cols g ∧ c'.1 = c.1 ∧ c'.2 !! k = c.2 !! k.
Proof.
  intros Hnd Hg [i Hf]%list_elem_of_lookup Hc Hf0 Hnot Hk. unfold merge_noncommon in Hg.
  destruct (set_intersection _) as [common|e] eqn:Hs; [|done].
  cbn [mbind Result_bind] in Hg.
  destruct (traverse _ _) as [l1|e] eqn:H1; [|done]. cbn [mbind Result_bind] in Hg.
  apply traverse_Ok in H1.
  assert (zip dfs2 ((λ columns : gset Key, columns ∖ common)
                      <$> ((λ df, list_to_set (columns df)) <$> dfs2)) !! i
          = Some (f, list_to_set (columns f) ∖ common)) as Hdn.
  { apply lookup_zip_with_Some. exists f, (list_to_set (columns f) ∖ common).
    split; [done|]. split; [done|]. by rewrite !list_lookup_fmap, Hf. }
  destruct (Forall2_lookup_l _ _ _ _ _ H1 Hdn) as (g1 & Hg1 & Hloc).
  cbn [fst snd] in Hloc.
  assert (c.1 ∈ iterate set_iter (list_to_set (columns f) ∖ common))
    as [n Hn]%list_elem_of_lookup.
  { apply (SetIter_valid_elem_of set_iter _ _ set_iter_valid).
    apply elem_of_difference. split.
    - apply elem_of_list_to_set. by apply (list_elem_of_fmap_2 fst).
    - intros Hin. apply Hnot.
      apply (set_intersection_spec _ _ _ Hs) with (s := list_to_set (columns f0)) in Hin.
      + by apply elem_of_list_to_set in Hin.
      + by apply (list_elem_of_fmap_2 (λ df, list_to_set (C:=gset Key) (columns df))). }
  rewrite Forall_forall in Hnd.
  pose proof (loc_columns_cell f g1 _ n c Hloc
                (Hnd f (list_elem_of_lookup_2 _ _ _ Hf)) Hn Hc) as Hcell.
  apply (concat_columns_cell l1 g g1 c k Hg); [|by eapply list_elem_of_lookup_2|done].
  by eapply list_elem_of_lookup_2.
Qed.
End Merge_values.

Section Merged_values.
Variable get_call_tree : string → CallTreeNode.
Variable calltree_to_df2 : CallTreeNode → list TreeRow.
Variable get_dump : string → Dump.
Variable get_inclusive_convertible_metrics : string → list string.
Variable set_iter : SetIter.

Local Abbreviation cubex :=
  (process_cubex get_call_tree calltree_to_df2 get_dump
                 get_inclusive_convertible_metrics).
Local Abbreviation multi :=
  (process_multi get_call_tree calltree_to_df2 get_dump
                 get_inclusive_convertible_metrics set_iter).

(** X19.  The merged tables hold the measurements of the runs.  Take
    well-formed runs, a call-tree table of the first run that lists every
    Cnode ID once, the run at position [i], its metric [m] (the [j]-th
    one), a row of its table whose (Full Callpath, Thread ID) pair every
    run has, and the Cnode ID that the first run gives to the callpath of
    that row.  The value of the row for [m] is then found at that Cnode
    ID: in the common table under the label (i, m, thread) when every run
    has [m], and in the run-specific table under the label (m, thread)
    when some run lacks [m]. *)
Theorem process_multi_values (profile_files : list string) (call_tree : CallTreeNode)
    (df_common df_noncommon : Frame Z) (first_file pf : string) (i j : nat)
    (m : string) (dr : DumpRow * TreeRow) (r : TreeRow) :
  SetIter_valid set_iter →
  well_formed_runs cubex profile_files →
  profile_files !! 0%nat = Some first_file →
  NoDup (Cnode_ID <$> calltree_df (cubex first_file)) →
  multi profile_files = Ok (call_tree, df_common, df_noncommon) →
  profile_files !! i = Some pf →
  df_metrics (df (cubex pf)) !! j = Some m →
  dr ∈ df_rows (df (cubex pf)) →
  (∀ pf', pf' ∈ profile_files → row_key dr ∈ run_keys (df (cubex pf'))) →
  r ∈ calltree_df (cubex first_file) →
  Full_Callpath r = Full_Callpath dr.2 →
  ((∀ pf', pf' ∈ profile_files → m ∈ df_metrics (df (cubex pf'))) →
   ∃ c, c ∈ cols df_common
        ∧ c.1 = [LInt (Z.of_nat i); LStr m; LInt (dump_thread dr.1)]
        ∧ c.2 !! Cnode_ID r = dump_values dr.1 !! j)
  ∧ (∀ pf', pf' ∈ profile_files → m ∉ df_metrics (df (cubex pf')) →
     ∃ c, c ∈ cols df_noncommon
          ∧ c.1 = [LStr m; LInt (dump_thread dr.1)]
          ∧ c.2 !! Cnode_ID r = dump_values dr.1 !! j).
Proof.
  intros Hit Hwf Hfirst Hids Hrun Hpf Hm Hdr Hrows Hr Hpath.
  destruct (process_multi_Ok _ _ _ _ _ _ _ _ _ Hrun)
    as (first_file' & rest & dfs2' & dfc0 & dfn0 & Hfiles & H2 & Hc & Hn
        & _ & -> & ->).
  assert (first_file' = first_file) as -> by (rewrite Hfiles in Hfirst; by injection Hfirst).
  destruct (adjusted_runs _ _ _ _ profile_files Hwf) as (dfs2 & H2' & Hadj & Hnd).
  assert (dfs2' = dfs2) as -> by congruence. clear H2'.
  destruct (Forall2_lookup_l _ _ _ _ _ Hadj Hpf) as (f & Hf & Hadjf).
  destruct (adjust_df_cell _ f j m dr Hadjf Hm Hdr) as (c0 & Hc0 & Hlabel & Hvalue).
  destruct (merged_indexes _ _ _ _ _ profile_files dfs2 dfc0 dfn0 H2 Hc Hn)
    as [Hidx Hidxn].
  assert (row_key dr ∈ index dfc0) as Hkey by (by apply Hidx).
  set (tmp := callpath_index (calltree_df (cubex first_file))).
  assert (NoDup tmp.*2) as Htmp.
  { unfold tmp, callpath_index. by rewrite <- list_fmap_compose. }
  assert ((Full_Callpath dr.2, Cnode_ID r) ∈ tmp) as Hin.
  { unfold tmp, callpath_index. rewrite <- Hpath.
    by apply (list_elem_of_fmap_2 (λ r, (Full_Callpath r, Cnode_ID r))). }
  assert (∀ pf' f', pf' ∈ profile_files → adjust_df (df (cubex pf')) = Ok f' →
            [LStr m] ∈ columns f' ↔ m ∈ df_metrics (df (cubex pf'))) as Hcols.
  { intros pf' f' _ (_ & _ & ->)%adjust_df_Ok. rewrite list_elem_of_fmap. split.
    - by intros (m' & [= ->] & ?).
    - intros ?. by exists m. }
  split.
  - intros Hcommon.
    destruct (merge_common_cell set_iter Hit dfs2 dfc0 f i c0 (row_key dr) Hnd Hc Hf Hc0)
      as (c1 & Hc1 & Hl1 & Hv1); [|done|].
    { intros f' [n Hn']%list_elem_of_lookup.
      destruct (Forall2_lookup_r _ _ _ _ _ Hadj Hn') as (pf' & Hpf' & Hadj').
      apply list_elem_of_lookup_2 in Hpf'. rewrite Hlabel.
      apply (Hcols pf' f' Hpf' Hadj'). by apply Hcommon. }
    destruct (replace_cells_lookup tmp dfc0 c1 (dump_thread dr.1) (Full_Callpath dr.2)
                (Cnode_ID r) Htmp Hc1 Hkey Hin) as (c' & Hc' & Hl' & Hv').
    exists c'. split; [done|]. split.
    + by rewrite Hl', Hl1, Hlabel.
    + rewrite Hv'. fold (row_key dr). by rewrite Hv1.
  - intros pf' [n Hn']%list_elem_of_lookup Hlacks.
    destruct (Forall2_lookup_l _ _ _ _ _ Hadj Hn') as (f0 & Hf0 & Hadj0).
    destruct (merge_noncommon_cell set_iter Hit dfs2 dfn0 f f0 c0 (row_key dr) Hnd Hn)
      as (c1 & Hc1 & Hl1 & Hv1); [by eapply list_elem_of_lookup_2|done
                                  |by eapply list_elem_of_lookup_2| |by rewrite Hidxn|].
    { rewrite Hlabel. intros Hin0. apply Hlacks.
      by apply (Hcols pf' f0 (list_elem_of_lookup_2 _ _ _ Hn') Hadj0). }
    rewrite <- Hidxn in Hkey.
    destruct (replace_cells_lookup tmp dfn0 c1 (dump_thread dr.1) (Full_Callpath dr.2)
                (Cnode_ID r) Htmp Hc1 Hkey Hin) as (c' & Hc' & Hl' & Hv').
    exists c'. split; [done|]. split.
    + by rewrite Hl', Hl1, Hlabel.
    + rewrite Hv'. fold (row_key dr). by rewrite Hv1.
Qed.
End Merged_values.

Lemma sample_runs_well_formed :
  well_formed_runs
    (process_cubex (λ _, sample_tree) (tree_rows "") sample_dump (λ _, []))
    sample_files.
Proof.
  intros pf Hpf. unfold sample_files in Hpf.
  repeat (apply elem_of_cons in Hpf as [->|Hpf]);
    [split; apply (bool_decide_unpack _); by vm_compute..|].
  by apply elem_of_nil in Hpf.
Qed.

(** Run 1 measured 40 for its metric a at node A on thread 0, and run 0
    measured 4 for its metric c there; c is not a metric of run 2. *)
Lemma process_multi_values_witness :
  process_multi (λ _, sample_tree) (tree_rows "") sample_dump (λ _, [])
      iter_elements sample_files
    = Ok (sample_merged.1.1, sample_merged.1.2, sample_merged.2)
  ∧ (∃ c, c ∈ cols sample_merged.1.2
          ∧ c.1 = [LInt 1; LStr "a"; LInt 0] ∧ c.2 !! 1 = Some 40)
  ∧ (∃ c, c ∈ cols sample_merged.2
          ∧ c.1 = [LStr "c"; LInt 0] ∧ c.2 !! 1 = Some 4).
Proof.
  set (cubex := process_cubex (λ _, sample_tree) (tree_rows "") sample_dump (λ _, [])).
  set (row_A := mkTreeRow "A" 1 (Some 0) "/root/A").
  assert (NoDup (Cnode_ID <$> calltree_df (cubex "run0"%string))) as Hids
    by (apply (bool_decide_unpack _); by vm_compute).
  assert (row_A ∈ calltree_df (cubex "run0"%string)) as Hr
    by (by apply (list_elem_of_lookup_2 _ 1%nat)).
  assert (∀ d, dump_cnode d = 1 → dump_thread d = 0 →
            ∀ pf', pf' ∈ sample_files → row_key (d, row_A) ∈ run_keys (df (cubex pf')))
    as Hrows.
  { intros [n t vs] Hn Ht pf' Hpf'. cbn in Hn, Ht. subst n t.
    unfold sample_files in Hpf'.
    repeat (apply elem_of_cons in Hpf' as [->|Hpf']);
      [apply (bool_decide_unpack _); by vm_compute..|].
    by apply elem_of_nil in Hpf'. }
  split; [exact sample_merged_run|]. split.
  - assert ((mkDumpRow 1 0 [30; 40], row_A) ∈ df_rows (df (cubex "run1"%string)))
      as Hdr by (by apply (list_elem_of_lookup_2 _ 1%nat)).
    destruct (process_multi_values (λ _, sample_tree) (tree_rows "") sample_dump
                (λ _, []) iter_elements sample_files
                sample_merged.1.1 sample_merged.1.2 sample_merged.2
                "run0"%string "run1"%string 1%nat 1%nat "a"%string
                (mkDumpRow 1 0 [30; 40], row_A) row_A
                iter_elements_valid sample_runs_well_formed eq_refl Hids
                sample_merged_run eq_refl eq_refl Hdr
                (Hrows (mkDumpRow 1 0 [30; 40]) eq_refl eq_refl) Hr eq_refl) as [Hcommon _].
    apply Hcommon. intros pf' Hpf'. unfold sample_files in Hpf'.
    repeat (apply elem_of_cons in Hpf' as [->|Hpf']);
      [apply (bool_decide_unpack _); by vm_compute..|].
    by apply elem_of_nil in Hpf'.
  - assert ((mkDumpRow 1 0 [3; 4], row_A) ∈ df_rows (df (cubex "run0"%string)))
      as Hdr by (by apply (list_elem_of_lookup_2 _ 2%nat)).
    destruct (process_multi_values (λ _, sample_tree) (tree_rows "") sample_dump
                (λ _, []) iter_elements sample_files
                sample_merged.1.1 sample_merged.1.2 sample_merged.2
                "run0"%string "run0"%string 0%nat 1%nat "c"%string
                (mkDumpRow 1 0 [3; 4], row_A) row_A
                iter_elements_valid sample_runs_well_formed eq_refl Hids
                sample_merged_run eq_refl eq_refl Hdr
                (Hrows (mkDumpRow 1 0 [3; 4]) eq_refl eq_refl) Hr eq_refl) as [_ Hspecific].
    apply (Hspecific "run2"%string).
    + unfold sample_files. do 2 right. left.
    + apply (bool_decide_unpack _). by vm_compute.
Defined.
